(** * armor: template/expression evaluator, plugin decoder and TLS
      certificate selection

    A shallow embedding of [plugin/plugin.go] and of the certificate
    selection callback installed by [HTTP.StartTLS] in [http.go], together
    with the parts of the libraries they call (fasttemplate, govaluate,
    bytes.Buffer, crypto/tls), and the properties of the specification
    checked against them. *)

From Stdlib Require Import ZArith Ascii String Lia.
From stdpp Require Import base option list strings gmap.

Local Open Scope string_scope.

(** ** Go runtime: errors, panics, byte strings *)

Module Go.

(** Go's [error] values, by origin. *)
Inductive error : Type :=
  | ErrCannotFindEndTag (endTag template rest : string)
      (* fasttemplate: "Cannot find end tag=%q in the template=%q starting from %q" *)
  | ErrUnclosedStringLiteral           (* govaluate: "Unclosed string literal" *)
  | ErrNotABool (operator : string)    (* govaluate: operand of a logical operator *)
  | ErrExpression (msg : string)       (* govaluate: any other error *)
  | ErrExternal (msg : string).        (* autocert, x509, mapstructure *)

(** Values a goroutine can panic with. *)
Inductive panic_value : Type :=
  | PanicTypeAssertion (key wanted : string)
      (* failed [x.(T)] on the value stored under [key] *)
  | PanicString (msg : string)
  | PanicError (e : error)
  | PanicIndexOutOfRange.

(** A call either returns or panics. *)
Inductive outcome (A : Type) : Type :=
  | Returned (a : A)
  | Panicked (p : panic_value).
Arguments Returned {A} a.
Arguments Panicked {A} p.

(** [s[n:]] and [s[:n]]; the callers below only slice within bounds. *)
Fixpoint slice_from (n : nat) (s : string) : string :=
  match n, s with
  | 0, _ => s
  | S n', String _ s' => slice_from n' s'
  | S _, EmptyString => EmptyString
  end.

Fixpoint slice_to (n : nat) (s : string) : string :=
  match n, s with
  | 0, _ => EmptyString
  | S n', String c s' => String c (slice_to n' s')
  | S _, EmptyString => EmptyString
  end.

(** [strings.HasPrefix(s, prefix)] *)
Fixpoint HasPrefix (s prefix : string) {struct prefix} : bool :=
  match prefix, s with
  | EmptyString, _ => true
  | String p prefix', String c s' =>
      if Ascii.eqb c p then HasPrefix s' prefix' else false
  | String _ _, EmptyString => false
  end.

(** [bytes.Index(s, sep)]; [None] stands for the result [-1]. *)
Fixpoint Index (s sep : string) {struct s} : option nat :=
  if HasPrefix s sep then Some 0
  else match s with
       | EmptyString => None
       | String _ s' => S <$> Index s' sep
       end.

(** [bytes.Count(s, sep)] for a non-empty [sep]: the number of
    non-overlapping instances.  Each instance consumes at least one byte,
    so [S (length s)] rounds are enough. *)
Fixpoint Count_rounds (rounds : nat) (s sep : string) : nat :=
  match rounds with
  | 0 => 0
  | S rounds' =>
      match Index s sep with
      | None => 0
      | Some n => S (Count_rounds rounds' (slice_from (n + String.length sep) s) sep)
      end
  end.

Definition Count (s sep : string) : nat :=
  Count_rounds (S (String.length s)) s sep.

(** [io.Writer] *)
Class Writer (W : Type) := Write : W -> string -> W * Z * option error.

(** [bytes.Buffer]: the bytes written so far.  [Write] appends and its
    error is always nil. *)
Definition Buffer := string.

#[export] Instance Buffer_Writer : Writer Buffer :=
  fun b p => (b ++ p, Z.of_nat (String.length p), None).

(** [Buffer.WriteString] *)
Definition WriteString (b : Buffer) (s : string) : Buffer := b ++ s.

End Go.

(** ** github.com/valyala/fasttemplate *)

Module Fasttemplate.
Import Go.

Record Template : Type := mkTemplate {
  template : string;
  startTag : string;
  endTag : string;
  texts : list string;
  tags : list string
}.

(** The scanning loop of [Template.Reset].  Every round that does not
    leave the loop removes a start tag from [s]; [None] is returned only
    when the rounds are used up (see [Reset_scan_rounds]). *)
Fixpoint Reset_scan (rounds : nat) (tmpl a b s : string) (texts tags : list string)
  : option (list string * list string + error) :=
  match rounds with
  | 0 => None
  | S rounds' =>
      match Index s a with
      | None => Some (inl ((texts ++ [s])%list, tags))
      | Some n =>
          let texts := (texts ++ [slice_to n s])%list in
          let s := slice_from (n + String.length a) s in
          match Index s b with
          | None => Some (inr (ErrCannotFindEndTag b tmpl s))
          | Some m =>
              Reset_scan rounds' tmpl a b (slice_from (m + String.length b) s)
                         texts (tags ++ [slice_to m s])%list
          end
      end
  end.

(** [Template.Reset] on a fresh template, returning the template it
    leaves behind and the error. *)
Definition Reset (tmpl a b : string) : outcome (Template * option error) :=
  if Nat.eqb (String.length a) 0 then Panicked (PanicString "startTag cannot be empty")
  else if Nat.eqb (String.length b) 0 then Panicked (PanicString "endTag cannot be empty")
  else if Nat.eqb (Count tmpl a) 0 then Returned (mkTemplate tmpl a b [] [], None)
  else match Reset_scan (S (String.length tmpl)) tmpl a b tmpl [] [] with
       | Some (inl (texts, tags)) => Returned (mkTemplate tmpl a b texts tags, None)
       | Some (inr e) => Returned (mkTemplate tmpl a b [] [], Some e)
       | None => Panicked (PanicString "unreachable")
       end.

(** [fasttemplate.NewTemplate] *)
Definition NewTemplate (tmpl a b : string) : outcome (option Template * option error) :=
  match Reset tmpl a b with
  | Returned (t, None) => Returned (Some t, None)
  | Returned (_, Some e) => Returned (None, Some e)
  | Panicked p => Panicked p
  end.

(** [fasttemplate.New]: panics where [NewTemplate] returns an error. *)
Definition New (tmpl a b : string) : outcome Template :=
  match NewTemplate tmpl a b with
  | Returned (Some t, None) => Returned t
  | Returned (_, Some e) => Panicked (PanicError e)
  | Returned (None, None) => Panicked (PanicString "unreachable")
  | Panicked p => Panicked p
  end.

Section ExecuteFunc.
Context {W : Type} `{Writer W}.

(** [TagFunc]: the writer is threaded through the call. *)
Definition TagFunc := W -> string -> W * Z * option error.

(** The loop [for i := 0; i < n; i++] of [ExecuteFunc], with [k = n - i]
    iterations left. *)
Fixpoint ExecuteFunc_loop (k i : nat) (t : Template) (f : TagFunc) (w : W) (nn : Z)
  : outcome (W * Z * option error) :=
  match k with
  | 0 => Returned (w, nn, None)
  | S k' =>
      match texts t !! i with
      | None => Panicked PanicIndexOutOfRange
      | Some text =>
          let '(w, ni, err) := Write w text in
          let nn := (nn + ni)%Z in
          match err with
          | Some e => Returned (w, nn, Some e)
          | None =>
              match tags t !! i with
              | None => Panicked PanicIndexOutOfRange
              | Some tag =>
                  let '(w, ni, err) := f w tag in
                  let nn := (nn + ni)%Z in
                  match err with
                  | Some e => Returned (w, nn, Some e)
                  | None => ExecuteFunc_loop k' (S i) t f w nn
                  end
              end
          end
      end
  end.

(** [Template.ExecuteFunc] *)
Definition ExecuteFunc (t : Template) (w : W) (f : TagFunc)
  : outcome (W * Z * option error) :=
  match length (texts t) with
  | 0 => (* n == -1 *)
      let '(w, ni, err) := Write w (template t) in Returned (w, ni, err)
  | S n =>
      match ExecuteFunc_loop n 0 t f w 0%Z with
      | Panicked p => Panicked p
      | Returned (w, nn, Some e) => Returned (w, nn, Some e)
      | Returned (w, nn, None) =>
          match texts t !! n with
          | None => Panicked PanicIndexOutOfRange
          | Some text =>
              let '(w, ni, err) := Write w text in Returned (w, (nn + ni)%Z, err)
          end
      end
  end.
End ExecuteFunc.

End Fasttemplate.

(** ** github.com/Knetic/govaluate

    [Expression.Evaluate] hands the rendered text to govaluate.  The
    library is an interface here ([Library]); next to it stands an
    executable model of a fragment of its lexer, planner and evaluator:
    quoted string literals, the comparators [==] and [!=] and at most one
    logical operator [&&] or [||].  The model answers [None] on every text
    outside the fragment, so that whatever it does answer is what the
    library answers. *)

Module Govaluate.
Import Go.

(** Results of an evaluation ([interface{}]). *)
Inductive value : Type :=
  | VString (s : string)
  | VBool (b : bool)
  | VFloat64 (bits : Z).

Record Library : Type := mkLibrary {
  EvaluableExpression : Type;
  NewEvaluableExpression : string -> EvaluableExpression + error;
  Evaluate_nil : EvaluableExpression -> option value * option error
    (* expr.Evaluate(nil) *)
}.

Definition quote : ascii := "'"%char.
Definition dquote : ascii := "034"%char.
Definition backslash : ascii := "092"%char.

Definition between (lo hi : nat) (c : ascii) : bool :=
  let n := nat_of_ascii c in Nat.leb lo n && Nat.leb n hi.

(** [unicode.IsSpace], [unicode.IsDigit], [unicode.IsLetter] on ASCII *)
Definition isSpace (c : ascii) : bool := between 9 13 c || between 32 32 c.
Definition isDigit (c : ascii) : bool := between 48 57 c.
Definition isLetter (c : ascii) : bool := between 65 90 c || between 97 122 c.
Definition is7bit (c : ascii) : bool := between 0 127 c.

Definition isNotQuote (c : ascii) : bool :=
  negb (Ascii.eqb c quote) && negb (Ascii.eqb c dquote).

Definition isNotAlphanumeric (c : ascii) : bool :=
  negb (isDigit c || isLetter c
        || Ascii.eqb c "("%char || Ascii.eqb c ")"%char
        || Ascii.eqb c "["%char || Ascii.eqb c "]"%char
        || negb (isNotQuote c)).

Fixpoint existsb_string (p : ascii -> bool) (s : string) : bool :=
  match s with
  | EmptyString => false
  | String c s' => p c || existsb_string p s'
  end.

(** [readUntilFalse]: the token read, whether the condition (or a breaking
    space) ended it, and the rest of the stream.  A backslash as the last
    character makes the lexer read past the end of its stream; that text
    is outside the model. *)
Fixpoint readUntilFalse (s : string)
    (includeWhitespace breakWhitespace allowEscaping : bool)
    (condition : ascii -> bool) (tokenBuffer : string)
  : option (string * bool * string) :=
  match s with
  | EmptyString => Some (tokenBuffer, false, EmptyString)
  | String character s' =>
      if allowEscaping && Ascii.eqb character backslash then
        match s' with
        | EmptyString => None
        | String character' s'' =>
            readUntilFalse s'' includeWhitespace breakWhitespace allowEscaping
                           condition (tokenBuffer ++ String character' "")
        end
      else if isSpace character && breakWhitespace
              && negb (Nat.eqb (String.length tokenBuffer) 0) then
        Some (tokenBuffer, true, s')
      else if isSpace character && negb includeWhitespace then
        readUntilFalse s' includeWhitespace breakWhitespace allowEscaping
                       condition tokenBuffer
      else if condition character then
        readUntilFalse s' includeWhitespace breakWhitespace allowEscaping
                       condition (tokenBuffer ++ String character "")
      else Some (tokenBuffer, true, s)
  end.

Inductive token : Type :=
  | STRING (s : string)
  | COMPARATOR (sym : string)
  | LOGICALOP (sym : string).

(** [readToken]: the next token and the rest of the stream, [inl None] at
    the end of the stream.  A string literal with a digit in it may be
    read as a time and is left out of the model, as are numbers,
    variables, functions, parentheses and the other operators. *)
Fixpoint readToken (s : string) : option (option (token * string) + error) :=
  match s with
  | EmptyString => Some (inl None)
  | String character s' =>
      if isSpace character then readToken s'
      else if isDigit character || Ascii.eqb character "."%char
              || Ascii.eqb character ","%char || Ascii.eqb character "["%char
              || isLetter character
              || Ascii.eqb character "("%char || Ascii.eqb character ")"%char
      then None
      else if negb (isNotQuote character) then
        match readUntilFalse s' true false true isNotQuote "" with
        | None => None
        | Some (_, false, _) => Some (inr ErrUnclosedStringLiteral)
        | Some (tokenValue, true, rest) =>
            if existsb_string isDigit tokenValue then None
            else Some (inl (Some (STRING tokenValue, slice_from 1 rest)))
        end
      else
        match readUntilFalse s false true true isNotAlphanumeric "" with
        | None => None
        | Some (tokenString, _, rest) =>
            if String.eqb tokenString "&&" || String.eqb tokenString "||"
            then Some (inl (Some (LOGICALOP tokenString, rest)))
            else if String.eqb tokenString "==" || String.eqb tokenString "!="
            then Some (inl (Some (COMPARATOR tokenString, rest)))
            else None
        end
  end.

(** [parseTokens].  Every token consumes a character, so [S (length s)]
    rounds read any stream to its end. *)
Fixpoint parseTokens (rounds : nat) (s : string) : option (list token + error) :=
  match rounds with
  | 0 => None
  | S rounds' =>
      match readToken s with
      | None => None
      | Some (inr e) => Some (inr e)
      | Some (inl None) => Some (inl [])
      | Some (inl (Some (t, rest))) =>
          match parseTokens rounds' rest with
          | Some (inl ts) => Some (inl (t :: ts))
          | other => other
          end
      end
  end.

(** Evaluation stages of the fragment: a comparator binds tighter than a
    logical operator. *)
Inductive operand : Type :=
  | Literal (s : string)
  | Compare (sym : string) (l r : string).

Inductive stage : Type :=
  | Single (o : operand)
  | Logical (sym : string) (l r : operand).

Definition planComparator (ts : list token) : option (operand * list token) :=
  match ts with
  | STRING a :: COMPARATOR c :: STRING b :: rest =>
      match rest with
      | COMPARATOR _ :: _ => None
      | _ => Some (Compare c a b, rest)
      end
  | STRING a :: rest => Some (Literal a, rest)
  | _ => None
  end.

Definition planStages (ts : list token) : option stage :=
  match planComparator ts with
  | Some (l, []) => Some (Single l)
  | Some (l, LOGICALOP sym :: rest) =>
      match planComparator rest with
      | Some (r, []) => Some (Logical sym l r)
      | _ => None
      end
  | _ => None
  end.

Definition model_NewEvaluableExpression (s : string) : option (stage + error) :=
  if existsb_string (fun c => negb (is7bit c)) s then None
  else match parseTokens (S (String.length s)) s with
       | None => None
       | Some (inr e) => Some (inr e)
       | Some (inl ts) =>
           match planStages ts with
           | Some st => Some (inl st)
           | None => None
           end
       end.

Definition evalOperand (o : operand) : value :=
  match o with
  | Literal s => VString s
  | Compare sym l r =>
      if String.eqb sym "==" then VBool (String.eqb l r)
      else VBool (negb (String.eqb l r))
  end.

(** Evaluation of a stage: the left side, the short circuit, the right
    side, the type checks, the operator. *)
Definition model_Evaluate (st : stage) : option value * option error :=
  match st with
  | Single o => (Some (evalOperand o), None)
  | Logical sym l r =>
      let isAnd := String.eqb sym "&&" in
      match evalOperand l, evalOperand r with
      | VBool lb, rv =>
          if Bool.eqb lb (negb isAnd) then (Some (VBool lb), None)
          else match rv with
               | VBool rb => (Some (VBool (if isAnd then lb && rb else lb || rb)), None)
               | _ => (None, Some (ErrNotABool sym))
               end
      | _, _ => (None, Some (ErrNotABool sym))
      end
  end.

(** The model's answer to [NewEvaluableExpression(s)] followed by
    [Evaluate(nil)]; [None] outside the fragment. *)
Definition model (s : string) : option (option value * option error) :=
  match model_NewEvaluableExpression s with
  | None => None
  | Some (inr e) => Some (None, Some e)
  | Some (inl st) => Some (model_Evaluate st)
  end.

(** A library that answers as the model does wherever the model answers. *)
Definition agrees (lib : Library) : Prop :=
  forall s,
    match model_NewEvaluableExpression s with
    | None => True
    | Some (inr e) => exists e', NewEvaluableExpression lib s = inr e'
    | Some (inl st) =>
        exists expr, NewEvaluableExpression lib s = inl expr
                     /\ Evaluate_nil lib expr = model_Evaluate st
    end.

(** The model completed into a library: texts outside the fragment are
    rejected. *)
Definition model_library : Library :=
  mkLibrary stage
    (fun s => match model_NewEvaluableExpression s with
              | Some r => r
              | None => inr (ErrExpression "outside the modelled fragment")
              end)
    model_Evaluate.

End Govaluate.

(** ** plugin/plugin.go: templates and expressions *)

Module Plugin.
Import Go.

(** What [mapTag] reads from an [echo.Context]. *)
Record Context : Type := mkContext {
  Scheme : string;                       (* c.Scheme() *)
  Request_Method : string;               (* c.Request().Method *)
  Request_RequestURI : string;           (* c.Request().RequestURI *)
  Request_URL_Path : string;             (* c.Request().URL.Path *)
  Request_Header_Get : string -> string; (* c.Request().Header.Get *)
  Param : string -> string;              (* c.Param *)
  QueryParam : string -> string;         (* c.QueryParam *)
  FormValue : string -> string           (* c.FormValue *)
}.

Definition mapTag (b : Buffer) (c : Context) (t : string) : Buffer :=
  if String.eqb t "scheme" then WriteString b (Scheme c)
  else if String.eqb t "method" then WriteString b (Request_Method c)
  else if String.eqb t "uri" then WriteString b (Request_RequestURI c)
  else if String.eqb t "path" then WriteString b (Request_URL_Path c)
  else if HasPrefix t "header:" then WriteString b (Request_Header_Get c (slice_from 7 t))
  else if HasPrefix t "path:" then WriteString b (Param c (slice_from 5 t))
  else if HasPrefix t "query:" then WriteString b (QueryParam c (slice_from 6 t))
  else if HasPrefix t "form:" then WriteString b (FormValue c (slice_from 5 t))
  else b.

(** [Template] and [Expression] both wrap a [fasttemplate.Template]. *)
Record Template : Type := mkTemplate { Template_ : Fasttemplate.Template }.
Record Expression : Type := mkExpression { Expression_ : Fasttemplate.Template }.

Definition NewTemplate (t : string) : outcome Template :=
  match Fasttemplate.New t "${" "}" with
  | Returned ft => Returned (mkTemplate ft)
  | Panicked p => Panicked p
  end.

(** [Template.Execute].  The buffer taken from the pool is reset first, so
    the rendering starts from the empty buffer; the callback writes to
    that same buffer. *)
Definition Execute (t : Template) (c : Context) : outcome (string * option error) :=
  let buf : Buffer := "" in
  match Fasttemplate.ExecuteFunc (Template_ t) buf
          (fun buf tag => (mapTag buf c tag, 0%Z, None)) with
  | Returned (buf, _, err) => Returned (buf, err)
  | Panicked p => Panicked p
  end.

Definition NewExpression (t : string) : outcome Expression :=
  match Fasttemplate.New t "${" "}" with
  | Returned ft => Returned (mkExpression ft)
  | Panicked p => Panicked p
  end.

(** The tag callback of [Expression.Evaluate]: the value between two
    single quotes. *)
Definition quoteTag (c : Context) (buf : Buffer) (tag : string) : Buffer * Z * option error :=
  let buf := WriteString buf "'" in
  let buf := mapTag buf c tag in
  let buf := WriteString buf "'" in
  (buf, 0%Z, None).

(** The text [Expression.Evaluate] hands to govaluate. *)
Definition expressionText (e : Expression) (c : Context)
  : outcome (Buffer * Z * option error) :=
  Fasttemplate.ExecuteFunc (Expression_ e) ("" : Buffer) (quoteTag c).

(** [Expression.Evaluate] *)
Definition Evaluate (lib : Govaluate.Library) (e : Expression) (c : Context)
  : outcome (option Govaluate.value * option error) :=
  match expressionText e c with
  | Panicked p => Panicked p
  | Returned (_, _, Some err) => Returned (None, Some err)
  | Returned (buf, _, None) =>
      match Govaluate.NewEvaluableExpression lib buf with
      | inr err => Returned (None, Some err)
      | inl expr => Returned (Govaluate.Evaluate_nil lib expr)
      end
  end.

(** *** Plugin records and [Decode] *)

(** The dynamic values ([interface{}]) a configuration record holds. *)
Inductive iface : Type :=
  | IString (s : string)
  | IInt (n : Z)
  | IFloat64 (bits : Z)
  | IBool (b : bool)
  | INil
  | IOther (repr : string).            (* slices, maps and the rest *)

(** [RawPlugin map[string]interface{}] *)
Abbreviation RawPlugin := (gmap string iface).

(** The fields of [Base] that [Decode] sets from the record; the mutex and
    the echo and logger handles carry no configuration. *)
Record Base : Type := mkBase {
  name : string;
  order : Z;
  Skip : string
}.

Inductive Kind : Type :=
  | BodyLimit | Logger | Redirect | HTTPSRedirect | HTTPSWWWRedirect
  | HTTPSNonWWWRedirect | WWWRedirect | NonWWWRedirect | AddTrailingSlash
  | RemoveTrailingSlash | Rewrite | Secure | CORS | Gzip | Header | Proxy
  | Static | File.

(** A plugin value: its concrete type, its [Base], and the fields
    mapstructure has filled in. *)
Record PluginValue : Type := mkPlugin {
  kind : Kind;
  base : Base;
  fields : gmap string iface
}.

Definition fresh (k : Kind) (b : Base) : option PluginValue :=
  Some (mkPlugin k b ∅).

(** [DefaultLookup]; [None] is the nil plugin. *)
Definition DefaultLookup (base : Base) : option PluginValue :=
  let n := name base in
  if String.eqb n "body-limit" then fresh BodyLimit base
  else if String.eqb n "logger" then fresh Logger base
  else if String.eqb n "redirect" then fresh Redirect base
  else if String.eqb n "https-redirect" then fresh HTTPSRedirect base
  else if String.eqb n "https-www-redirect" then fresh HTTPSWWWRedirect base
  else if String.eqb n "https-non-www-redirect" then fresh HTTPSNonWWWRedirect base
  else if String.eqb n "www-redirect" then fresh WWWRedirect base
  else if String.eqb n "non-www-redirect" then fresh NonWWWRedirect base
  else if String.eqb n "add-trailing-slash" then fresh AddTrailingSlash base
  else if String.eqb n "remove-trailing-slash" then fresh RemoveTrailingSlash base
  else if String.eqb n "rewrite" then fresh Rewrite base
  else if String.eqb n "secure" then fresh Secure base
  else if String.eqb n "cors" then fresh CORS base
  else if String.eqb n "gzip" then fresh Gzip base
  else if String.eqb n "header" then fresh Header base
  else if String.eqb n "proxy" then fresh Proxy base
  else if String.eqb n "static" then fresh Static base
  else if String.eqb n "file" then fresh File base
  else None.

(** Sequencing of calls that may panic. *)
Definition bind {A B : Type} (x : outcome A) (k : A -> outcome B) : outcome B :=
  match x with
  | Returned a => k a
  | Panicked p => Panicked p
  end.

Notation "x <- e ;; k" := (bind e (fun x => k))
  (at level 100, e at next level, right associativity).

(** [rp["name"].(string)] and [rp["order"].(int)]: a missing key yields the
    nil interface, on which the assertion fails like on any other type. *)
Definition RawPlugin_Name (rp : RawPlugin) : outcome string :=
  match rp !! "name" with
  | Some (IString s) => Returned s
  | _ => Panicked (PanicTypeAssertion "name" "string")
  end.

Definition RawPlugin_Order (rp : RawPlugin) : outcome Z :=
  match rp !! "order" with
  | Some (IInt n) => Returned n
  | _ => Panicked (PanicTypeAssertion "order" "int")
  end.

Section Decode.
(** The replaceable [Lookup] and mapstructure's decoder, which fills the
    plugin from the record or returns an error. *)
Variable Lookup : Base -> option PluginValue.
Variable mapstructure_Decode : RawPlugin -> PluginValue -> PluginValue + error.

Definition Decode (r : RawPlugin) : outcome PluginValue :=
  name <- RawPlugin_Name r ;;
  order <- RawPlugin_Order r ;;
  let base := mkBase name order "false" in
  match Lookup base with
  | None => Panicked (PanicString ("plugin=" ++ name ++ " not found"))
  | Some p =>
      match mapstructure_Decode r p with
      | inr err => Panicked (PanicError err)
      | inl p => Returned p
      end
  end.
End Decode.

End Plugin.

(** ** http.go: the certificate selection callback of [StartTLS] *)

Module Armor.
Import Go.

(** [tls.Certificate]: the chain of DER certificates, leaf first. *)
Record Certificate : Type := mkCertificate { Certificate_ : list string }.

Record ClientHelloInfo : Type := mkClientHello {
  ServerName : string;
  CipherSuites : list Z
}.

(** The key-pinning cache.  The Go value is a map from host names to
    pointers to [pins] objects, each holding a set of key hashes in its map
    [m]; [objs] is the store of those objects and [next] the next free
    address. *)
Record pinning : Type := mkPinning {
  objs : gmap nat (gset string);
  next : nat;
  pins : gmap string nat
}.

Definition newPinning : pinning := mkPinning ∅ 0 ∅.

(** [new(pins)] with its map made *)
Definition new_pins (P : pinning) : nat * pinning :=
  (next P, mkPinning (<[next P := ∅]> (objs P)) (S (next P)) (pins P)).

(** [hostPins.m[keyHashBase] = struct{}{}] *)
Definition m_insert (hostPins : nat) (keyHashBase : string) (P : pinning) : pinning :=
  mkPinning (<[hostPins := {[keyHashBase]} ∪ default ∅ (objs P !! hostPins)]> (objs P))
            (next P) (pins P).

(** [pins.pins[serverName] = hostPins] *)
Definition pins_store (serverName : string) (hostPins : nat) (P : pinning) : pinning :=
  mkPinning (objs P) (next P) (<[serverName := hostPins]> (pins P)).

(** The pins recorded for a host. *)
Definition PinsFor (P : pinning) (hostName : string) : gset string :=
  match pins P !! hostName with
  | Some hostPins => default ∅ (objs P !! hostPins)
  | None => ∅
  end.

(** The server's TLS state: the [auto] and [key-pinning] flags, the table
    built by [BuildNameToCertificate] from the loaded certificates, the pin
    cache, and the server names the provisioning manager was asked for. *)
Record TLS : Type := mkTLS {
  Auto : bool;
  KeyPinning : bool;
  NameToCertificate : gmap string Certificate;
  pinCache : pinning;
  managerCalls : list string
}.

Definition set_pins (a : TLS) (P : pinning) : TLS :=
  mkTLS (Auto a) (KeyPinning a) (NameToCertificate a) P (managerCalls a).

Definition called (a : TLS) (serverName : string) : TLS :=
  mkTLS (Auto a) (KeyPinning a) (NameToCertificate a) (pinCache a)
        (managerCalls a ++ [serverName])%list.

Section GetCertificate.
(** crypto/x509, crypto/sha256 and encoding/base64 *)
Variable PublicKey : Type.
Variable x509_ParseCertificate : string -> PublicKey + error.
  (* the [PublicKey] of the parsed certificate *)
Variable x509_MarshalPKIXPublicKey : PublicKey -> string + error.
Variable sha256_Sum256 : string -> string.
Variable base64_EncodeToString : string -> string.

(** Lines 178-187: the pin of one certificate of the chain. *)
Definition keyHash (crtDer : string) : string + error :=
  match x509_ParseCertificate crtDer with
  | inr err => inr err
  | inl parsedCert_PublicKey =>
      match x509_MarshalPKIXPublicKey parsedCert_PublicKey with
      | inr err => inr err
      | inl pubKeyDer =>
          let hash := sha256_Sum256 pubKeyDer in
          inl (base64_EncodeToString hash)
      end
  end.

(** The loop over [cert.Certificate]: it writes into the object
    [hostPins] points to, and leaves at the first error. *)
Fixpoint pinChain (chain : list string) (hostPins : nat) (P : pinning)
  : pinning * option error :=
  match chain with
  | [] => (P, None)
  | crtDer :: chain' =>
      match keyHash crtDer with
      | inr err => (P, Some err)
      | inl keyHashBase => pinChain chain' hostPins (m_insert hostPins keyHashBase P)
      end
  end.

(** The provisioning manager's answer to a handshake
    ([e.AutoTLSManager.GetCertificate]). *)
Variable manager : ClientHelloInfo -> Certificate + error.

(** The closure installed as [s.TLSConfig.GetCertificate]. *)
Definition GetCertificate (a : TLS) (clientHello : ClientHelloInfo)
  : (option Certificate * option error) * TLS :=
  match NameToCertificate a !! ServerName clientHello with
  | Some cert => ((Some cert, None), a)
  | None =>
      if Auto a then
        let a := called a (ServerName clientHello) in
        match manager clientHello with
        | inr err => ((None, Some err), a)
        | inl cert =>
            if KeyPinning a then
              let '(hostPins, P) :=
                match pins (pinCache a) !! ServerName clientHello with
                | Some hostPins => (hostPins, pinCache a)
                | None => new_pins (pinCache a)
                end in
              match pinChain (Certificate_ cert) hostPins P with
              | (P, Some err) => ((None, Some err), set_pins a P)
              | (P, None) =>
                  (* mutex.Lock(); defer mutex.Unlock() *)
                  let P := pins_store (ServerName clientHello) hostPins P in
                  ((Some cert, None), set_pins a P)
              end
            else ((Some cert, None), a)
        end
      else ((None, None), a)
  end.

(** *** Concurrent handshakes

    The same closure as a machine, one step per access to the shared
    pin cache, for handshakes that run at the same time.  A goroutine
    is at one of these points: *)
Inductive point : Type :=
  | AtEntry                                       (* line 161 *)
  | InLoop (cert : Certificate) (hostPins : nat) (rest : list string)
                                                  (* line 177, [rest] to go *)
  | AtStore (cert : Certificate) (hostPins : nat) (* line 192, mutex held *)
  | AtReturn (cert : Certificate)                 (* deferred Unlock *)
  | Done (result : option Certificate * option error).

(** What the goroutines share: the TLS state and the pin cache's mutex. *)
Record shared : Type := mkShared { tls : TLS; locked : bool }.

(** One step of a handshake; [None] when it has returned or waits for
    the mutex. *)
Definition step (clientHello : ClientHelloInfo) (pt : point) (sh : shared)
  : option (point * shared) :=
  let a := tls sh in
  match pt with
  | AtEntry =>
      (* lines 161-175: up to and with the read of the host's pins *)
      match NameToCertificate a !! ServerName clientHello with
      | Some cert => Some (Done (Some cert, None), sh)
      | None =>
          if Auto a then
            let a := called a (ServerName clientHello) in
            match manager clientHello with
            | inr err => Some (Done (None, Some err), mkShared a (locked sh))
            | inl cert =>
                if KeyPinning a then
                  let '(hostPins, P) :=
                    match pins (pinCache a) !! ServerName clientHello with
                    | Some hostPins => (hostPins, pinCache a)
                    | None => new_pins (pinCache a)
                    end in
                  Some (InLoop cert hostPins (Certificate_ cert),
                        mkShared (set_pins a P) (locked sh))
                else Some (Done (Some cert, None), mkShared a (locked sh))
            end
          else Some (Done (None, None), sh)
      end
  | InLoop cert hostPins (crtDer :: rest) =>
      (* lines 178-188: one round of the loop *)
      match keyHash crtDer with
      | inr err => Some (Done (None, Some err), sh)
      | inl keyHashBase =>
          Some (InLoop cert hostPins rest,
                mkShared (set_pins a (m_insert hostPins keyHashBase (pinCache a)))
                         (locked sh))
      end
  | InLoop cert hostPins [] =>
      (* line 190: mutex.Lock() *)
      if locked sh then None else Some (AtStore cert hostPins, mkShared a true)
  | AtStore cert hostPins =>
      (* line 192 *)
      Some (AtReturn cert,
            mkShared (set_pins a (pins_store (ServerName clientHello) hostPins (pinCache a)))
                     (locked sh))
  | AtReturn cert =>
      (* line 191, run at the return of line 194: mutex.Unlock() *)
      Some (Done (Some cert, None), mkShared a false)
  | Done _ => None
  end.

(** A handshake alone, for [n] steps. *)
Fixpoint alone (n : nat) (clientHello : ClientHelloInfo) (pt : point) (sh : shared)
  : point * shared :=
  match n with
  | 0 => (pt, sh)
  | S n' =>
      match step clientHello pt sh with
      | Some (pt', sh') => alone n' clientHello pt' sh'
      | None => (pt, sh)
      end
  end.

(** Handshakes in flight, and a schedule: the goroutine chosen at each
    turn makes one step if it can. *)
Definition pool := list (ClientHelloInfo * point).

Definition turn (i : nat) (ths : pool) (sh : shared) : pool * shared :=
  match ths !! i with
  | Some (clientHello, pt) =>
      match step clientHello pt sh with
      | Some (pt', sh') => (<[i := (clientHello, pt')]> ths, sh')
      | None => (ths, sh)
      end
  | None => (ths, sh)
  end.

Fixpoint run (schedule : list nat) (ths : pool) (sh : shared) : pool * shared :=
  match schedule with
  | [] => (ths, sh)
  | i :: schedule' => let '(ths, sh) := turn i ths sh in run schedule' ths sh
  end.
End GetCertificate.

End Armor.

(** ** Vocabulary of the specification and sample inputs *)

Module PluginSpec.
Import Go Plugin.

(** Whether a text holds a placeholder: a start tag with an end tag
    somewhere after it. *)
Definition hasPlaceholder (s : string) : bool :=
  match Index s "${" with
  | None => false
  | Some n =>
      match Index (slice_from (n + 2) s) "}" with
      | None => false
      | Some _ => true
      end
  end.

(** A value that cannot end or escape a string literal: no quote and no
    backslash in it. *)
Definition plain (c : ascii) : bool :=
  Govaluate.isNotQuote c && negb (Ascii.eqb c Govaluate.backslash).

(** The records [Decode] cannot decode, each with the value the call
    panics with. *)
Inductive malformed (Lookup : Base -> option PluginValue) (r : RawPlugin)
  : panic_value -> Prop :=
  | NameMissing :
      (forall s, r !! "name" <> Some (IString s)) ->
      malformed Lookup r (PanicTypeAssertion "name" "string")
  | OrderMissing (n : string) :
      r !! "name" = Some (IString n) ->
      (forall z, r !! "order" <> Some (IInt z)) ->
      malformed Lookup r (PanicTypeAssertion "order" "int")
  | UnknownPlugin (n : string) (z : Z) :
      r !! "name" = Some (IString n) ->
      r !! "order" = Some (IInt z) ->
      Lookup (mkBase n z "false") = None ->
      malformed Lookup r (PanicString ("plugin=" ++ n ++ " not found")).

End PluginSpec.

Module Example.
Import Go.

Definition request (method : string) (token : string) : Plugin.Context :=
  Plugin.mkContext "https" method "/login?token=..." "/login"
    (fun _ => "") (fun _ => "")
    (fun k => if String.eqb k "token" then token else "")
    (fun _ => "").

Definition isGET : Plugin.Expression :=
  Plugin.mkExpression
    (Fasttemplate.mkTemplate "${method} == 'GET'" "${" "}" [""; " == 'GET'"] ["method"]).

Definition hasSecret : Plugin.Expression :=
  Plugin.mkExpression
    (Fasttemplate.mkTemplate "${query:token} == 'secret'" "${" "}"
       [""; " == 'secret'"] ["query:token"]).

Definition decodeAll (r : Plugin.RawPlugin) (p : Plugin.PluginValue)
  : Plugin.PluginValue + error :=
  inl (Plugin.mkPlugin (Plugin.kind p) (Plugin.base p) r).

Definition bogus : Plugin.RawPlugin :=
  <["order" := Plugin.IInt 1]> {["name" := Plugin.IString "bogus"]}.

Definition floatOrder : Plugin.RawPlugin :=
  <["order" := Plugin.IFloat64 4607182418800017408]> {["name" := Plugin.IString "gzip"]}.

(** Stand-ins for x509, SHA-256 and base64: a certificate is its key, an
    empty certificate does not parse. *)
Definition parse (der : string) : string + error :=
  if String.eqb der "" then inr (ErrExternal "x509: malformed certificate") else inl der.
Definition marshal (key : string) : string + error := inl key.
Definition sha (s : string) : string := "sha256:" ++ s.
Definition b64 (s : string) : string := s.

(** A manager that serves [a.com] only, with an ECDSA chain to clients
    that offer cipher suites for it and an RSA chain to the others. *)
Definition rsaChain : Armor.Certificate := Armor.mkCertificate ["rsa-leaf"; "ca"].
Definition ecChain : Armor.Certificate := Armor.mkCertificate ["ec-leaf"; "ca"].

Definition manager (h : Armor.ClientHelloInfo) : Armor.Certificate + error :=
  if String.eqb (Armor.ServerName h) "a.com" then
    match Armor.CipherSuites h with
    | [] => inl rsaChain
    | _ => inl ecChain
    end
  else inr (ErrExternal "acme/autocert: host not configured in HostWhitelist").

Definition manualCert : Armor.Certificate := Armor.mkCertificate ["manual-leaf"].

Definition server (auto keyPinning : bool) : Armor.TLS :=
  Armor.mkTLS auto keyPinning {["manual.com" := manualCert]} Armor.newPinning [].

Definition rsaHello : Armor.ClientHelloInfo := Armor.mkClientHello "a.com" [].
Definition ecHello : Armor.ClientHelloInfo := Armor.mkClientHello "a.com" [49195%Z].

Definition GetCertificate := Armor.GetCertificate string parse marshal sha b64 manager.
Definition run := Armor.run string parse marshal sha b64 manager.

End Example.

(** ** Vocabulary of the further properties *)

Module Rendering.
Import Go Plugin.

(** The value a tag stands for in a request: what [mapTag] writes. *)
Definition resolve (c : Context) (tag : string) : string := mapTag "" c tag.

(** The same value between single quotes. *)
Definition quoted (c : Context) (tag : string) : string :=
  "'" ++ resolve c tag ++ "'".

(** A placeholder as it is written in a template. *)
Definition written (tag : string) : string := "${" ++ tag ++ "}".

(** Texts with something for each tag between them. *)
Fixpoint interleave (g : string -> string) (texts tags : list string) : string :=
  match texts, tags with
  | text :: texts', tag :: tags' => text ++ g tag ++ interleave g texts' tags'
  | text :: _, [] => text
  | [], _ => ""
  end.

(** The texts and tags a template executes: a template without tags
    keeps no texts and writes its source. *)
Definition pieces (ft : Fasttemplate.Template) : list string * list string :=
  match Fasttemplate.texts ft with
  | [] => ([Fasttemplate.template ft], [])
  | _ => (Fasttemplate.texts ft, Fasttemplate.tags ft)
  end.

End Rendering.

Module Registry.
Import Plugin.

(** Kinds of plugin and the names they are registered under. *)
Definition kindName (k : Kind) : string :=
  match k with
  | BodyLimit => "body-limit"
  | Logger => "logger"
  | Redirect => "redirect"
  | HTTPSRedirect => "https-redirect"
  | HTTPSWWWRedirect => "https-www-redirect"
  | HTTPSNonWWWRedirect => "https-non-www-redirect"
  | WWWRedirect => "www-redirect"
  | NonWWWRedirect => "non-www-redirect"
  | AddTrailingSlash => "add-trailing-slash"
  | RemoveTrailingSlash => "remove-trailing-slash"
  | Rewrite => "rewrite"
  | Secure => "secure"
  | CORS => "cors"
  | Gzip => "gzip"
  | Header => "header"
  | Proxy => "proxy"
  | Static => "static"
  | File => "file"
  end.

End Registry.

Module PinSpec.
Import Go Armor.

Section Chain.
Variable keyHash : string -> string + error.

(** The pins the loop over a chain has written when it leaves: those of
    the certificates before the first one that fails. *)
Fixpoint chainPins (chain : list string) : gset string :=
  match chain with
  | [] => ∅
  | crtDer :: chain' =>
      match keyHash crtDer with
      | inl h => {[h]} ∪ chainPins chain'
      | inr _ => ∅
      end
  end.

(** The error the loop leaves with, if it does. *)
Fixpoint chainError (chain : list string) : option error :=
  match chain with
  | [] => None
  | crtDer :: chain' =>
      match keyHash crtDer with
      | inl _ => chainError chain'
      | inr err => Some err
      end
  end.
End Chain.

(** A pin cache whose hosts have an object each: every host points to an
    address in use, and no two hosts to the same. *)
Definition separate (P : pinning) : Prop :=
  (forall h l, pins P !! h = Some l -> l < next P)
  /\ (forall h1 h2 l, pins P !! h1 = Some l -> pins P !! h2 = Some l -> h1 = h2).

(** The points between [mutex.Lock()] and [mutex.Unlock()]. *)
Definition holds (pt : point) : bool :=
  match pt with
  | AtStore _ _ | AtReturn _ => true
  | _ => false
  end.

Fixpoint holders (ths : pool) : nat :=
  match ths with
  | [] => 0
  | (_, pt) :: ths' => Nat.b2n (holds pt) + holders ths'
  end.

Definition returned (pt : point) : bool :=
  match pt with
  | Done _ => true
  | _ => false
  end.

End PinSpec.

(** ** http.go: the certificates [StartTLS] loads *)

Module StartTLS.
Import Go Armor.

(** The fields of a host's configuration that [StartTLS] reads. *)
Record Host : Type := mkHost { CertFile : string; KeyFile : string }.

(** [StartTLS] goes on, or the logger's [Fatal] ends the process. *)
Inductive started (A : Type) : Type :=
  | Loaded (a : A)
  | Fatal (err : error).
Arguments Loaded {A} a.
Arguments Fatal {A} err.

Section Load.
(** [tls.LoadX509KeyPair], and the names [BuildNameToCertificate] files a
    certificate under (those of its leaf). *)
Variable LoadX509KeyPair : string -> string -> Certificate + error.
Variable names : Certificate -> list string.

(** Lines 139-145: the server's own certificate. *)
Definition loadGlobal (certFile keyFile : string) (certificates : list Certificate)
  : started (list Certificate) :=
  if negb (String.eqb certFile "") && negb (String.eqb keyFile "") then
    match LoadX509KeyPair certFile keyFile with
    | inr err => Fatal err
    | inl cert => Loaded (certificates ++ [cert])%list
    end
  else Loaded certificates.

(** Lines 147-156: the hosts' certificates, in the order the map of hosts
    is ranged over. *)
Fixpoint loadHosts (hosts : list (string * Host)) (certificates : list Certificate)
  : started (list Certificate) :=
  match hosts with
  | [] => Loaded certificates
  | (_, host) :: hosts' =>
      if String.eqb (CertFile host) "" || String.eqb (KeyFile host) "" then
        loadHosts hosts' certificates
      else
        match LoadX509KeyPair (CertFile host) (KeyFile host) with
        | inr err => Fatal err
        | inl cert => loadHosts hosts' (certificates ++ [cert])%list
        end
  end.

(** [Config.BuildNameToCertificate]: later certificates take the names of
    earlier ones. *)
Definition BuildNameToCertificate (certificates : list Certificate)
  : gmap string Certificate :=
  foldl (fun m cert => foldl (fun m name => <[name := cert]> m) m (names cert))
        ∅ certificates.

(** Lines 137-158, from the certificates the TLS configuration starts
    with to the table the callback looks names up in. *)
Definition loadCertificates (certFile keyFile : string) (hosts : list (string * Host))
    (certificates : list Certificate) : started (gmap string Certificate) :=
  match loadGlobal certFile keyFile certificates with
  | Fatal err => Fatal err
  | Loaded certificates =>
      match loadHosts hosts certificates with
      | Fatal err => Fatal err
      | Loaded certificates => Loaded (BuildNameToCertificate certificates)
      end
  end.

(** A certificate and a key file are both given. *)
Definition configured (certFile keyFile : string) : bool :=
  negb (String.eqb certFile "") && negb (String.eqb keyFile "").

(** A host's certificate: loaded from the two files of a host that has
    both. *)
Definition hostCertificate (hosts : list (string * Host)) (cert : Certificate) : Prop :=
  exists hostName host,
    (hostName, host) ∈ hosts
    /\ configured (CertFile host) (KeyFile host) = true
    /\ LoadX509KeyPair (CertFile host) (KeyFile host) = inl cert.
End Load.

End StartTLS.

Module Example2.
Import Go.

Definition keyHash : string -> string + error :=
  Armor.keyHash string Example.parse Example.marshal Example.sha Example.b64.

(** A manager whose chain has a certificate that does not parse behind
    its leaf. *)
Definition brokenChain : Armor.Certificate := Armor.mkCertificate ["new-leaf"; ""; "ca"].
Definition brokenManager (h : Armor.ClientHelloInfo) : Armor.Certificate + error :=
  inl brokenChain.

Definition brokenGetCertificate :=
  Armor.GetCertificate string Example.parse Example.marshal Example.sha Example.b64
    brokenManager.

(** The server after it has provisioned the RSA chain for [a.com]. *)
Definition pinned : Armor.TLS :=
  snd (Example.GetCertificate (Example.server true true) Example.rsaHello).

Definition step := Armor.step string Example.parse Example.marshal Example.sha Example.b64
                     Example.manager.

Definition twoHandshakes : Armor.pool :=
  [(Example.rsaHello, Armor.AtEntry); (Example.ecHello, Armor.AtEntry)].

(** Files: every pair loads but those with the key [missing.key]; the
    certificate in [wild.pem] has the names of both hosts, every other
    one the name of its file. *)
Definition load (certFile keyFile : string) : Armor.Certificate + error :=
  if String.eqb keyFile "missing.key"
  then inr (ErrExternal "open missing.key: no such file or directory")
  else inl (Armor.mkCertificate [certFile]).

Definition leafNames (cert : Armor.Certificate) : list string :=
  match Armor.Certificate_ cert with
  | ["wild.pem"] => ["a.com"; "b.com"]
  | l => l
  end.

Definition hosts : list (string * StartTLS.Host) :=
  [("b.com", StartTLS.mkHost "b.com" ""); ("a.com", StartTLS.mkHost "a.com" "a.key")].

End Example2.

(** * Properties *)

Import Go.

(** ** Byte strings *)

Lemma append_cons (x : ascii) (a b : string) : String x a ++ b = String x (a ++ b).
Proof. reflexivity. Qed.

Lemma append_empty_l (a : string) : "" ++ a = a.
Proof. reflexivity. Qed.

Lemma append_assoc (a b c : string) : (a ++ b) ++ c = a ++ b ++ c.
Proof.
  induction a as [|x a IH]; [reflexivity|].
  rewrite !append_cons. now rewrite IH.
Qed.

Lemma append_empty_r (a : string) : a ++ "" = a.
Proof.
  induction a as [|x a IH]; [reflexivity|].
  rewrite append_cons. now rewrite IH.
Qed.

Lemma length_append (a b : string) :
  String.length (a ++ b) = String.length a + String.length b.
Proof.
  induction a as [|x a IH]; [reflexivity|].
  rewrite append_cons. simpl. now rewrite IH.
Qed.

Lemma length_slice_from (n : nat) (s : string) :
  String.length (slice_from n s) = String.length s - n.
Proof.
  revert s; induction n as [|n IH]; intros [|c s]; simpl; auto.
Qed.

Lemma slice_from_append (n : nat) (a b : string) :
  n <= String.length a -> slice_from n (a ++ b) = slice_from n a ++ b.
Proof.
  revert a; induction n as [|n IH]; intros [|c a] Hn; simpl in *; try reflexivity.
  - lia.
  - apply IH; lia.
Qed.

Lemma HasPrefix_append (p rest : string) : HasPrefix (p ++ rest) p = true.
Proof.
  induction p as [|x p IH]; [reflexivity|].
  rewrite append_cons. simpl. now rewrite Ascii.eqb_refl.
Qed.

Lemma HasPrefix_split (s p : string) :
  HasPrefix s p = true -> s = p ++ slice_from (String.length p) s.
Proof.
  revert s; induction p as [|x p IH]; intros [|c s]; simpl; try discriminate; auto.
  destruct (Ascii.eqb_spec c x) as [->|]; [|discriminate].
  intros Hp. rewrite append_cons. f_equal. now apply IH.
Qed.

Lemma Index_unfold (s sep : string) :
  Index s sep =
  if HasPrefix s sep then Some 0
  else match s with
       | EmptyString => None
       | String _ s' => S <$> Index s' sep
       end.
Proof. destruct s; reflexivity. Qed.

(** A found index splits the string around the separator. *)
Lemma Index_Some_split (s sep : string) (n : nat) :
  Index s sep = Some n ->
  s = slice_to n s ++ sep ++ slice_from (n + String.length sep) s.
Proof.
  revert n; induction s as [|c s IH]; intros n; rewrite Index_unfold;
    destruct (HasPrefix _ sep) eqn:Hp.
  - intros [= <-]. now apply HasPrefix_split in Hp.
  - discriminate.
  - intros [= <-]. now apply HasPrefix_split in Hp.
  - destruct (Index s sep) as [m|] eqn:Hm; simpl; [|discriminate].
    intros [= <-]. simpl. rewrite append_cons. f_equal. now apply IH.
Qed.

Lemma HasPrefix_length (s p : string) :
  HasPrefix s p = true -> String.length p <= String.length s.
Proof.
  revert s; induction p as [|x p IH]; intros [|c s]; simpl; try discriminate; try lia.
  destruct (Ascii.eqb c x); [|discriminate].
  intros Hp. apply IH in Hp. lia.
Qed.

Lemma Index_bound (s sep : string) (n : nat) :
  Index s sep = Some n -> n + String.length sep <= String.length s.
Proof.
  revert n; induction s as [|c s IH]; intros n; rewrite Index_unfold;
    destruct (HasPrefix _ sep) eqn:Hp; try discriminate.
  - intros [= <-]. now apply HasPrefix_length in Hp.
  - intros [= <-]. now apply HasPrefix_length in Hp.
  - destruct (Index s sep) as [m|] eqn:Hm; simpl; [|discriminate].
    intros [= <-]. specialize (IH m eq_refl). lia.
Qed.

(** A separator that occurs is found, at its first occurrence or before. *)
Lemma Index_complete (pre sep post : string) :
  exists n, Index (pre ++ sep ++ post) sep = Some n /\ n <= String.length pre.
Proof.
  induction pre as [|c pre (n & Hn & Hle)]; rewrite Index_unfold.
  - rewrite append_empty_l, HasPrefix_append. exists 0; auto.
  - destruct (HasPrefix _ sep).
    + exists 0; split; [reflexivity | lia].
    + rewrite append_cons, Hn. exists (S n); split; [reflexivity | simpl; lia].
Qed.

Lemma Count_zero (s sep : string) : Count s sep = 0 <-> Index s sep = None.
Proof.
  unfold Count; simpl. destruct (Index s sep); split; congruence.
Qed.

(** ** fasttemplate: parsing and execution *)

Import Fasttemplate.

(** The scan of [Reset] ends within the rounds it is given. *)
Lemma Reset_scan_rounds rounds tmpl a b s texts tags :
  0 < String.length a -> String.length s < rounds ->
  Reset_scan rounds tmpl a b s texts tags <> None.
Proof.
  revert s texts tags; induction rounds as [|rounds IH];
    intros s texts tags Ha Hs; [lia|].
  simpl. destruct (Index s a) as [n|] eqn:Hn; [|discriminate].
  destruct (Index (slice_from _ s) b) as [m|] eqn:Hm; [|discriminate].
  apply IH; [assumption|].
  apply Index_bound in Hn. rewrite !length_slice_from. lia.
Qed.

(** It leaves one text more than tags. *)
Lemma Reset_scan_lengths rounds tmpl a b s texts tags texts' tags' :
  Reset_scan rounds tmpl a b s texts tags = Some (inl (texts', tags')) ->
  length texts = length tags -> length texts' = S (length tags').
Proof.
  revert s texts tags; induction rounds as [|rounds IH];
    intros s texts tags; simpl; [discriminate|].
  destruct (Index s a) as [n|].
  - destruct (Index (slice_from _ s) b) as [m|]; [|discriminate].
    intros H L. apply IH in H; [assumption|].
    rewrite !length_app. simpl. lia.
  - intros [= <- <-] L. rewrite length_app. simpl. lia.
Qed.

(** What [New] returns for the tags of this program. *)
Lemma New_inv (s : string) (ft : Template) :
  New s "${" "}" = Returned ft ->
  template ft = s /\
  ((Index s "${" = None /\ texts ft = []) \/
   (PluginSpec.hasPlaceholder s = true /\ length (texts ft) = S (length (tags ft)))).
Proof.
  unfold New, NewTemplate, Reset. simpl Nat.eqb at 1 2. cbv iota.
  destruct (Nat.eqb_spec (Count s "${") 0) as [Hc|Hc].
  - intros [= <-]. apply Count_zero in Hc. auto.
  - destruct (Reset_scan _ s "${" "}" s [] []) as [[[txts tgs]|e]|] eqn:Hscan;
      try discriminate.
    intros [= <-]. split; [reflexivity|]. right. split.
    + unfold PluginSpec.hasPlaceholder. simpl in Hscan.
      destruct (Index s "${") as [n|] eqn:Hn; [|now apply Count_zero in Hn].
      change (String.length "${") with 2 in Hscan.
      now destruct (Index (slice_from (n + 2) s) "}").
    + simpl. now apply Reset_scan_lengths in Hscan.
Qed.

(** [New] never reaches the end of its rounds. *)
Lemma New_total (s : string) : New s "${" "}" <> Panicked (PanicString "unreachable").
Proof.
  unfold New, NewTemplate, Reset. simpl Nat.eqb at 1 2. cbv iota.
  destruct (Nat.eqb (Count s "${") 0); [discriminate|].
  pose proof (Reset_scan_rounds (S (String.length s)) s "${" "}" s [] []) as R.
  destruct (Reset_scan _ s "${" "}" s [] []) as [[[txts tgs]|e]|];
    try discriminate.
  exfalso. apply R; simpl; lia || reflexivity.
Qed.

(** With a buffer to write to and a callback that reports no error, the
    loop of [ExecuteFunc] returns without error. *)
Lemma ExecuteFunc_loop_ok (t : Template) (f : TagFunc (W := Buffer)) :
  (forall w tag, snd (f w tag) = None) ->
  forall k i w nn,
    i + k <= length (tags t) -> i + k <= length (texts t) ->
    exists w' nn', ExecuteFunc_loop k i t f w nn = Returned (w', nn', None).
Proof.
  intros Hf. induction k as [|k IH]; intros i w nn Htags Htexts; simpl.
  - eauto.
  - destruct (lookup_lt_is_Some_2 (texts t) i) as [text ->]; [lia|].
    destruct (lookup_lt_is_Some_2 (tags t) i) as [tag ->]; [lia|].
    cbn. specialize (Hf (w ++ text) tag).
    destruct (f (w ++ text) tag) as [[w2 ni] err]. simpl in Hf; subst err.
    apply IH; lia.
Qed.

Lemma ExecuteFunc_ok (s : string) (ft : Template) (f : TagFunc (W := Buffer)) (w : Buffer) :
  New s "${" "}" = Returned ft ->
  (forall w tag, snd (f w tag) = None) ->
  exists w' nn, ExecuteFunc ft w f = Returned (w', nn, None).
Proof.
  intros Hnew Hf. apply New_inv in Hnew as [_ [[_ Htexts]|[_ Hlen]]];
    unfold ExecuteFunc.
  - rewrite Htexts. cbn. eauto.
  - rewrite Hlen.
    destruct (ExecuteFunc_loop_ok ft f Hf (length (tags ft)) 0 w 0%Z)
      as (w1 & nn1 & ->); [lia | lia |].
    destruct (lookup_lt_is_Some_2 (texts ft) (length (tags ft))) as [text ->]; [lia|].
    cbn. eauto.
Qed.

(** ** [Template.Execute] *)

Lemma hasPlaceholder_spec (s : string) :
  PluginSpec.hasPlaceholder s = true <->
  exists pre tag post, s = pre ++ "${" ++ tag ++ "}" ++ post.
Proof.
  unfold PluginSpec.hasPlaceholder. split.
  - destruct (Index s "${") as [n|] eqn:Hn; [|discriminate].
    destruct (Index (slice_from (n + 2) s) "}") as [m|] eqn:Hm; [|discriminate].
    intros _. apply Index_Some_split in Hn, Hm.
    change (String.length "${") with 2 in Hn.
    change (String.length "}") with 1 in Hm.
    exists (slice_to n s), (slice_to m (slice_from (n + 2) s)),
           (slice_from (m + 1) (slice_from (n + 2) s)).
    rewrite <- Hm. exact Hn.
  - intros (pre & tag & post & ->).
    destruct (Index_complete pre "${" (tag ++ "}" ++ post)) as (n & -> & Hle).
    rewrite <- (append_assoc pre "${"), slice_from_append
      by (rewrite length_append; simpl; lia).
    rewrite <- (append_assoc _ tag).
    now destruct (Index_complete (slice_from (n + 2) (pre ++ "${") ++ tag) "}" post)
      as (m & -> & _).
Qed.

(** C8: a template with no placeholder in it renders as itself, whatever
    the request. *)
Theorem Execute_no_placeholder (s : string) (t : Plugin.Template) (c : Plugin.Context) :
  PluginSpec.hasPlaceholder s = false ->
  Plugin.NewTemplate s = Returned t ->
  Plugin.Execute t c = Returned (s, None).
Proof.
  unfold Plugin.NewTemplate, Plugin.Execute. intros Hno.
  destruct (New s "${" "}") as [ft|] eqn:Hnew; [|discriminate].
  intros [= <-]. simpl.
  apply New_inv in Hnew as [Htmpl [[_ Htexts]|[Hyes _]]]; [|congruence].
  unfold ExecuteFunc. rewrite Htexts, Htmpl. reflexivity.
Qed.

(** C10: rendering a template returns, and its error is nil. *)
Theorem Execute_error_nil (s : string) (t : Plugin.Template) (c : Plugin.Context) :
  Plugin.NewTemplate s = Returned t ->
  exists out, Plugin.Execute t c = Returned (out, None).
Proof.
  unfold Plugin.NewTemplate, Plugin.Execute.
  destruct (New s "${" "}") as [ft|] eqn:Hnew; [|discriminate].
  intros [= <-]. simpl.
  destruct (ExecuteFunc_ok s ft (fun buf tag => (Plugin.mapTag buf c tag, 0%Z, None)) "" Hnew)
    as (out & nn & ->); [reflexivity|].
  eauto.
Qed.

(** ** [Expression.Evaluate] *)

Import Govaluate.

(** The completed model is a library in agreement with the model. *)
Lemma model_library_agrees : agrees model_library.
Proof.
  intros s. simpl. destruct (model_NewEvaluableExpression s) as [[st|e]|]; eauto.
Qed.

(** A library in agreement with the model evaluates a text of the
    fragment to the model's answer. *)
Lemma Evaluate_of_text (lib : Library) (e : Plugin.Expression) (c : Plugin.Context)
    (text : string) (nn : Z) (st : stage) :
  agrees lib ->
  Plugin.expressionText e c = Returned (text, nn, None) ->
  model_NewEvaluableExpression text = Some (inl st) ->
  Plugin.Evaluate lib e c = Returned (model_Evaluate st).
Proof.
  intros Hlib Htext Hst. unfold Plugin.Evaluate. rewrite Htext.
  specialize (Hlib text). rewrite Hst in Hlib.
  now destruct Hlib as (expr & -> & ->).
Qed.

(** A value with no quote and no backslash in it, put between quotes, is
    read by the lexer up to its closing quote. *)
Lemma readUntilFalse_plain (v rest acc : string) :
  existsb_string (fun c => negb (PluginSpec.plain c)) v = false ->
  readUntilFalse (v ++ String quote rest) true false true isNotQuote acc
  = Some (acc ++ v, true, String quote rest).
Proof.
  revert acc; induction v as [|c v IH]; intros acc Hv.
  - rewrite append_empty_l, append_empty_r. reflexivity.
  - simpl in Hv. apply orb_false_iff in Hv as [Hc Hv].
    apply negb_false_iff, andb_true_iff in Hc as [Hq Hb].
    apply negb_true_iff in Hb.
    rewrite append_cons. simpl. rewrite Hb, Hq. simpl.
    rewrite andb_false_r. simpl.
    rewrite IH by assumption. now rewrite append_assoc.
Qed.

(** Such a value, digits apart, is one string literal of the expression:
    the token after the opening quote is the value itself, and lexing
    goes on behind the closing quote. *)
Lemma quoted_plain_value_is_one_literal (v rest : string) :
  existsb_string (fun c => negb (PluginSpec.plain c)) v = false ->
  existsb_string isDigit v = false ->
  readToken (String quote (v ++ String quote rest)) = Some (inl (Some (STRING v, rest))).
Proof.
  intros Hv Hd. simpl. rewrite readUntilFalse_plain by assumption.
  rewrite append_empty_l, Hd. reflexivity.
Qed.

(** C9: the expression [${method} == 'GET'] is true of a GET request and
    false of a POST request, without error. *)
Theorem Evaluate_method_is_GET (lib : Library) (e : Plugin.Expression) (c : Plugin.Context) :
  agrees lib ->
  Plugin.NewExpression "${method} == 'GET'" = Returned e ->
  (Plugin.Request_Method c = "GET" ->
   Plugin.Evaluate lib e c = Returned (Some (VBool true), None)) /\
  (Plugin.Request_Method c = "POST" ->
   Plugin.Evaluate lib e c = Returned (Some (VBool false), None)).
Proof.
  intros Hlib [= <-].
  assert (Htext : Plugin.expressionText
            (Plugin.mkExpression
               (Fasttemplate.mkTemplate "${method} == 'GET'" "${" "}" [""; " == 'GET'"] ["method"])) c
          = Returned ("'" ++ (Plugin.Request_Method c ++ "'") ++ " == 'GET'", 9%Z, None))
    by reflexivity.
  split; intros Hm; rewrite Hm in Htext.
  - now apply (Evaluate_of_text lib _ c _ _ (Single (Compare "==" "GET" "GET")) Hlib Htext).
  - now apply (Evaluate_of_text lib _ c _ _ (Single (Compare "==" "POST" "GET")) Hlib Htext).
Qed.

(** C1, at a value with quotes in it: the query parameter [token] is not
    the secret, and yet the comparison with the secret evaluates to true,
    because the quotes of the value close and open string literals and
    the [==] and [||] between them are read as operators. *)
Theorem Evaluate_quote_injection (lib : Library) (e : Plugin.Expression) (c : Plugin.Context) :
  agrees lib ->
  Plugin.NewExpression "${query:token} == 'secret'" = Returned e ->
  Plugin.QueryParam c "token" = "' == '' || '" ->
  Plugin.expressionText e c = Returned ("'' == '' || '' == 'secret'", 12%Z, None) /\
  Plugin.Evaluate lib e c = Returned (Some (VBool true), None).
Proof.
  intros Hlib [= <-] Hq.
  assert (Htext : Plugin.expressionText
            (Plugin.mkExpression
               (Fasttemplate.mkTemplate "${query:token} == 'secret'" "${" "}"
                  [""; " == 'secret'"] ["query:token"])) c
          = Returned ("'" ++ (Plugin.QueryParam c "token" ++ "'") ++ " == 'secret'", 12%Z, None))
    by reflexivity.
  rewrite Hq in Htext. split; [exact Htext|].
  now apply (Evaluate_of_text lib _ c _ _
               (Logical "||" (Compare "==" "" "") (Compare "==" "" "secret")) Hlib Htext).
Qed.

(** ** [Decode] *)

(** C3, as the code has it: [Decode] has no error result; on a record it
    cannot decode it panics, with the failed type assertion on [name] or
    [order] (an [order] that is a number but not an [int] included) or with
    the message that the plugin was not found. *)
Theorem Decode_malformed_panics
    (Lookup : Plugin.Base -> option Plugin.PluginValue)
    (decode : Plugin.RawPlugin -> Plugin.PluginValue -> Plugin.PluginValue + error)
    (r : Plugin.RawPlugin) (p : panic_value) :
  PluginSpec.malformed Lookup r p ->
  Plugin.Decode Lookup decode r = Panicked p.
Proof.
  unfold Plugin.Decode, Plugin.RawPlugin_Name, Plugin.RawPlugin_Order, Plugin.bind.
  intros [Hname | n Hname Horder | n z Hname Horder Hlookup].
  - destruct (r !! "name") as [[s| | | | |]|]; try reflexivity.
    now destruct (Hname s).
  - rewrite Hname. destruct (r !! "order") as [[|z| | | |]|]; try reflexivity.
    now destruct (Horder z).
  - now rewrite Hname, Horder, Hlookup.
Qed.

Lemma Decode_malformed_panics_witness :
  Plugin.Decode Plugin.DefaultLookup Example.decodeAll Example.floatOrder
  = Panicked (PanicTypeAssertion "order" "int").
Proof.
  apply Decode_malformed_panics, (PluginSpec.OrderMissing _ _ "gzip").
  - reflexivity.
  - intros z. vm_compute. discriminate.
Defined.

(** C3 as stated fails: a record without [name], and a record whose name
    is not a plugin's, make [Decode] panic. *)
Lemma Decode_panics :
  Plugin.Decode Plugin.DefaultLookup Example.decodeAll ∅
  = Panicked (PanicTypeAssertion "name" "string")
  /\ Plugin.Decode Plugin.DefaultLookup Example.decodeAll Example.bogus
     = Panicked (PanicString "plugin=bogus not found").
Proof. split; reflexivity. Qed.

Lemma Decode_returns_known :
  Plugin.Decode Plugin.DefaultLookup Example.decodeAll
    (<["order" := Plugin.IInt 2]> {["name" := Plugin.IString "gzip"]})
  = Returned (Plugin.mkPlugin Plugin.Gzip (Plugin.mkBase "gzip" 2 "false")
                (<["order" := Plugin.IInt 2]> {["name" := Plugin.IString "gzip"]})).
Proof. reflexivity. Qed.

(** ** Certificate selection *)

Import Armor.

Lemma set_pins_id (a : TLS) : set_pins a (pinCache a) = a.
Proof. now destruct a. Qed.

Lemma set_pins_set_pins (a : TLS) (P P' : pinning) :
  set_pins (set_pins a P) P' = set_pins a P'.
Proof. reflexivity. Qed.

Section Certificates.
Variable PublicKey : Type.
Variable x509_ParseCertificate : string -> PublicKey + error.
Variable x509_MarshalPKIXPublicKey : PublicKey -> string + error.
Variable sha256_Sum256 : string -> string.
Variable base64_EncodeToString : string -> string.

Local Abbreviation keyHash :=
  (Armor.keyHash PublicKey x509_ParseCertificate x509_MarshalPKIXPublicKey
     sha256_Sum256 base64_EncodeToString).
Local Abbreviation pinChain :=
  (Armor.pinChain PublicKey x509_ParseCertificate x509_MarshalPKIXPublicKey
     sha256_Sum256 base64_EncodeToString).
Local Abbreviation GetCertificate :=
  (Armor.GetCertificate PublicKey x509_ParseCertificate x509_MarshalPKIXPublicKey
     sha256_Sum256 base64_EncodeToString).
Local Abbreviation step :=
  (Armor.step PublicKey x509_ParseCertificate x509_MarshalPKIXPublicKey
     sha256_Sum256 base64_EncodeToString).
Local Abbreviation alone :=
  (Armor.alone PublicKey x509_ParseCertificate x509_MarshalPKIXPublicKey
     sha256_Sum256 base64_EncodeToString).

Implicit Types (manager : ClientHelloInfo -> Certificate + error).
Implicit Types (a : TLS) (P : pinning) (hello : ClientHelloInfo).

(** C4: a certificate loaded for the server name is returned as it is,
    whatever the [auto] flag says and whatever the manager would answer;
    the state is left as it was, the manager is not called. *)
Theorem manual_certificate_first manager a hello (cert : Certificate) :
  NameToCertificate a !! ServerName hello = Some cert ->
  GetCertificate manager a hello = ((Some cert, None), a).
Proof. unfold Armor.GetCertificate. now intros ->. Qed.

(** C2, as the code has it: without a loaded certificate for the name,
    the callback returns no certificate and no error when [auto] is off,
    and the manager's error (an unlisted host is one) when [auto] is on. *)
Theorem no_certificate manager a hello :
  NameToCertificate a !! ServerName hello = None ->
  (Auto a = false -> GetCertificate manager a hello = ((None, None), a))
  /\ (Auto a = true -> forall err, manager hello = inr err ->
      fst (GetCertificate manager a hello) = (None, Some err)).
Proof.
  unfold Armor.GetCertificate. intros ->. split.
  - now intros ->.
  - now intros -> err ->.
Qed.

(** The loop over the chain adds to the object it is given and to
    nothing else. *)
Lemma pinChain_adds (chain : list string) (hostPins : nat) P P' :
  pinChain chain hostPins P = (P', None) ->
  pins P' = pins P
  /\ default ∅ (objs P !! hostPins) ⊆ default ∅ (objs P' !! hostPins)
  /\ forall der, der ∈ chain ->
       exists h, keyHash der = inl h /\ h ∈ default ∅ (objs P' !! hostPins).
Proof.
  revert P; induction chain as [|crtDer chain IH]; intros P; simpl.
  - intros [= <-]. split; [reflexivity|]. split; [reflexivity|].
    intros der H. now apply elem_of_nil in H.
  - destruct (keyHash crtDer) as [h|err] eqn:Hh; [|discriminate].
    intros H. apply IH in H as (Hpins & Hsub & Hall). simpl in Hpins, Hsub.
    rewrite lookup_insert_eq in Hsub. simpl in Hsub.
    split; [assumption|]. split; [etrans; [apply union_subseteq_r | exact Hsub]|].
    intros der [->|Hin]%elem_of_cons; [|auto].
    exists h. split; [assumption|].
    apply Hsub, elem_of_union_l, elem_of_singleton. reflexivity.
Qed.

(** Pins that are there already are added without effect. *)
Lemma pinChain_pinned (chain : list string) (hostPins : nat) P :
  (forall der, der ∈ chain ->
     exists h, keyHash der = inl h /\ h ∈ default ∅ (objs P !! hostPins)) ->
  pinChain chain hostPins P = (P, None).
Proof.
  induction chain as [|crtDer chain IH]; intros Hall; simpl; [reflexivity|].
  destruct (Hall crtDer) as (h & -> & Hin); [left|].
  assert (m_insert hostPins h P = P) as ->.
  { destruct P as [o n p]; unfold m_insert; simpl in *. f_equal.
    destruct (o !! hostPins) as [S|] eqn:Ho; simpl in *;
      [|now apply not_elem_of_empty in Hin].
    apply insert_id. rewrite Ho. f_equal.
    symmetry. now apply subseteq_union_1_L, singleton_subseteq_l. }
  apply IH. intros der Hder. apply Hall. now right.
Qed.

(** Whether it ends in an error or not, the loop keeps the host map and
    takes nothing out of the object. *)
Lemma pinChain_keeps (chain : list string) (hostPins : nat) P :
  pins (fst (pinChain chain hostPins P)) = pins P
  /\ default ∅ (objs P !! hostPins)
     ⊆ default ∅ (objs (fst (pinChain chain hostPins P)) !! hostPins).
Proof.
  revert P; induction chain as [|crtDer chain IH]; intros P; simpl; [auto|].
  destruct (keyHash crtDer) as [h|err]; [|auto].
  destruct (IH (m_insert hostPins h P)) as [Hpins Hsub]. simpl in Hpins, Hsub.
  rewrite lookup_insert_eq in Hsub. simpl in Hsub.
  split; [assumption|]. etrans; [apply union_subseteq_r | exact Hsub].
Qed.

(** A resolution takes no pin away from the host it resolves. *)
Lemma GetCertificate_keeps_pins manager a hello :
  PinsFor (pinCache a) (ServerName hello)
  ⊆ PinsFor (pinCache (snd (GetCertificate manager a hello))) (ServerName hello).
Proof.
  unfold Armor.GetCertificate.
  destruct (NameToCertificate a !! ServerName hello); [reflexivity|].
  destruct (Auto a); [|reflexivity].
  destruct (manager hello) as [cert|err]; [|reflexivity].
  simpl. destruct (KeyPinning a); [|reflexivity].
  unfold PinsFor at 1.
  destruct (pins (pinCache a) !! ServerName hello) as [hostPins|] eqn:Hhost;
    [|apply empty_subseteq].
  destruct (pinChain_keeps (Certificate_ cert) hostPins (pinCache a)) as [Hpins Hsub].
  destruct (pinChain (Certificate_ cert) hostPins (pinCache a)) as [P' [err|]];
    simpl in *; unfold PinsFor; simpl.
  - now rewrite Hpins, Hhost.
  - now rewrite lookup_insert_eq.
Qed.

Lemma keyHash_inl (der h : string) :
  keyHash der = inl h ->
  exists key pubKeyDer,
    x509_ParseCertificate der = inl key
    /\ x509_MarshalPKIXPublicKey key = inl pubKeyDer
    /\ h = base64_EncodeToString (sha256_Sum256 pubKeyDer).
Proof.
  unfold Armor.keyHash.
  destruct (x509_ParseCertificate der) as [key|]; [|discriminate].
  destruct (x509_MarshalPKIXPublicKey key) as [pubKeyDer|] eqn:Hpub; [|discriminate].
  intros [= <-]. exists key, pubKeyDer. auto.
Qed.

(** C5: after a resolution that provisioned a certificate with key
    pinning on, the host's pin set holds, for every certificate of the
    served chain, the base64 text of the SHA-256 hash of its DER-encoded
    public key; a further resolution that serves keys with these pins
    succeeds and leaves the pin cache, and so the pin set, as it is. *)
Theorem served_keys_are_pinned manager a hello (cert : Certificate) (a' : TLS) :
  NameToCertificate a !! ServerName hello = None ->
  Auto a = true ->
  KeyPinning a = true ->
  GetCertificate manager a hello = ((Some cert, None), a') ->
  (forall der, der ∈ Certificate_ cert ->
     exists key pubKeyDer,
       x509_ParseCertificate der = inl key
       /\ x509_MarshalPKIXPublicKey key = inl pubKeyDer
       /\ base64_EncodeToString (sha256_Sum256 pubKeyDer)
          ∈ PinsFor (pinCache a') (ServerName hello))
  /\ (forall manager2 (cert2 : Certificate),
        manager2 hello = inl cert2 ->
        (forall der2, der2 ∈ Certificate_ cert2 ->
           exists der, der ∈ Certificate_ cert /\ keyHash der2 = keyHash der) ->
        exists a'', GetCertificate manager2 a' hello = ((Some cert2, None), a'')
                    /\ pinCache a'' = pinCache a').
Proof.
  intros Hno Hauto Hpin. unfold Armor.GetCertificate at 1.
  rewrite Hno, Hauto. simpl. rewrite Hpin.
  destruct (manager hello) as [cert0|err]; [|discriminate].
  set (start := match pins (pinCache a) !! ServerName hello with
                | Some hostPins => (hostPins, pinCache a)
                | None => new_pins (pinCache a)
                end).
  destruct start as [hostPins P].
  destruct (pinChain (Certificate_ cert0) hostPins P) as [P' [err|]] eqn:Hchain;
    [discriminate|].
  intros [= <- <-]. apply pinChain_adds in Hchain as (_ & _ & Hall).
  assert (Hfor : PinsFor (pins_store (ServerName hello) hostPins P') (ServerName hello)
                 = default ∅ (objs P' !! hostPins)).
  { unfold PinsFor. simpl. now rewrite lookup_insert_eq. }
  split.
  - simpl. rewrite Hfor. intros der Hder.
    destruct (Hall der Hder) as (h & Hh & Hin).
    apply keyHash_inl in Hh as (key & pubKeyDer & Hkey & Hpub & ->).
    exists key, pubKeyDer. auto.
  - intros manager2 cert2 Hm2 Hsame. unfold Armor.GetCertificate.
    simpl. rewrite Hno, Hauto, Hm2, Hpin, lookup_insert_eq.
    rewrite pinChain_pinned.
    + eexists. split; [reflexivity|]. simpl. unfold pins_store. simpl.
      now rewrite insert_insert_eq.
    + intros der2 Hder2. destruct (Hsame der2 Hder2) as (der & Hder & ->).
      simpl. auto.
Qed.

(** C7: the pin cache is written only where a certificate was
    provisioned with key pinning on.  A resolution that returns a loaded
    certificate, or runs with key pinning off (or with [auto] off, or
    whose manager returns an error) leaves the pin cache as it is. *)
Theorem pins_written_only_when_provisioned manager a hello :
  is_Some (NameToCertificate a !! ServerName hello)
  \/ KeyPinning a = false
  \/ Auto a = false
  \/ (exists err, manager hello = inr err) ->
  pinCache (snd (GetCertificate manager a hello)) = pinCache a.
Proof.
  unfold Armor.GetCertificate.
  destruct (NameToCertificate a !! ServerName hello) as [manual|] eqn:Hno;
    [reflexivity|].
  destruct (Auto a); [|reflexivity].
  destruct (manager hello) as [cert|err]; [|reflexivity].
  simpl. destruct (KeyPinning a); [|reflexivity].
  intros [[? [=]]|[[=]|[[=]|[? [=]]]]].
Qed.

(** *** The machine and the closure *)

Lemma alone_Done manager (n : nat) hello (r : option Certificate * option error)
    (sh : shared) :
  alone manager n hello (Done r) sh = (Done r, sh).
Proof. now destruct n. Qed.

Lemma alone_loop manager hello (cert : Certificate) (hostPins : nat)
    (chain : list string) :
  forall a (n : nat), length chain + 3 <= n ->
    alone manager n hello (InLoop cert hostPins chain) (mkShared a false)
    = match pinChain chain hostPins (pinCache a) with
      | (P, Some err) => (Done (None, Some err), mkShared (set_pins a P) false)
      | (P, None) =>
          (Done (Some cert, None),
           mkShared (set_pins a (pins_store (ServerName hello) hostPins P)) false)
      end.
Proof.
  induction chain as [|crtDer chain IH]; intros a n Hn.
  - destruct n as [|[|[|n]]]; simpl in Hn; try lia.
    simpl. now rewrite alone_Done.
  - destruct n as [|n]; simpl in Hn; [lia|]. simpl.
    destruct (keyHash crtDer) as [h|err].
    + rewrite IH by lia. simpl.
      now destruct (pinChain chain hostPins (m_insert hostPins h (pinCache a)))
        as [P [err|]].
    + now rewrite alone_Done, set_pins_id.
Qed.

(** A handshake that runs alone, with the mutex free, does what the
    closure does, and leaves the mutex free. *)
Theorem alone_GetCertificate manager a hello :
  exists n, alone manager n hello AtEntry (mkShared a false)
            = (Done (fst (GetCertificate manager a hello)),
               mkShared (snd (GetCertificate manager a hello)) false).
Proof.
  unfold Armor.GetCertificate.
  destruct (NameToCertificate a !! ServerName hello) as [manual|] eqn:Hno.
  { exists 1. simpl. now rewrite Hno. }
  destruct (Auto a) eqn:Hauto; [|exists 1; simpl; now rewrite Hno, Hauto].
  destruct (manager hello) as [cert|err] eqn:Hm;
    [|exists 1; simpl; now rewrite Hno, Hauto, Hm].
  simpl. destruct (KeyPinning a) eqn:Hpin;
    [|exists 1; simpl; now rewrite Hno, Hauto, Hm, Hpin].
  exists (S (length (Certificate_ cert) + 3)).
  cbn [Armor.alone Armor.step tls]. rewrite Hno, Hauto, Hm. simpl. rewrite Hpin.
  destruct (match pins (pinCache a) !! ServerName hello with
            | Some hostPins => (hostPins, pinCache a)
            | None => new_pins (pinCache a)
            end) as [hostPins P].
  rewrite alone_loop by lia. simpl.
  now destruct (pinChain (Certificate_ cert) hostPins P) as [P' [err|]].
Qed.

(** The read of the host's pins and the writes of the loop are steps a
    handshake makes while another one holds the mutex. *)
Lemma pins_accessed_outside_mutex manager a hello :
  is_Some (step manager hello AtEntry (mkShared a true))
  /\ forall (cert : Certificate) (hostPins : nat) (crtDer : string) (rest : list string),
       is_Some (step manager hello (InLoop cert hostPins (crtDer :: rest)) (mkShared a true)).
Proof.
  split.
  - simpl. destruct (NameToCertificate a !! ServerName hello); [eauto|].
    destruct (Auto a); [|eauto]. destruct (manager hello); [|eauto].
    simpl. destruct (KeyPinning a); [|eauto].
    destruct (pins (pinCache a) !! ServerName hello); simpl; eauto.
  - intros. simpl. destruct (keyHash crtDer); eauto.
Qed.
End Certificates.

(** ** The properties at sample inputs *)

Lemma Execute_no_placeholder_witness :
  PluginSpec.hasPlaceholder "/index.html }" = false
  /\ Plugin.Execute (Plugin.mkTemplate (Fasttemplate.mkTemplate "/index.html }" "${" "}" [] []))
       (Example.request "GET" "")
     = Returned ("/index.html }", None).
Proof. split; [reflexivity|]. apply Execute_no_placeholder; reflexivity. Defined.

(** A start tag with no end tag after it is no placeholder, and no
    template either: [NewTemplate] panics on it. *)
Lemma NewTemplate_unclosed :
  PluginSpec.hasPlaceholder "cost ${ 5" = false
  /\ Plugin.NewTemplate "cost ${ 5"
     = Panicked (PanicError (ErrCannotFindEndTag "}" "cost ${ 5" " 5")).
Proof. split; reflexivity. Qed.

Lemma Execute_error_nil_witness :
  exists out,
    Plugin.Execute
      (Plugin.mkTemplate
         (Fasttemplate.mkTemplate "${scheme}://a.com${uri}" "${" "}"
            [""; "://a.com"; ""] ["scheme"; "uri"]))
      (Example.request "GET" "")
    = Returned (out, None).
Proof. apply (Execute_error_nil "${scheme}://a.com${uri}"). reflexivity. Defined.

Lemma Evaluate_method_is_GET_witness :
  Plugin.Evaluate Govaluate.model_library Example.isGET (Example.request "GET" "")
  = Returned (Some (Govaluate.VBool true), None)
  /\ Plugin.Evaluate Govaluate.model_library Example.isGET (Example.request "POST" "")
     = Returned (Some (Govaluate.VBool false), None).
Proof.
  split.
  - apply (Evaluate_method_is_GET _ _ _ model_library_agrees eq_refl). reflexivity.
  - apply (Evaluate_method_is_GET _ _ _ model_library_agrees eq_refl). reflexivity.
Defined.

Lemma Evaluate_quote_injection_witness :
  Plugin.Evaluate Govaluate.model_library Example.hasSecret
    (Example.request "GET" "' == '' || '")
  = Returned (Some (Govaluate.VBool true), None).
Proof.
  apply (Evaluate_quote_injection _ _ _ model_library_agrees eq_refl). reflexivity.
Defined.

(** The same expression on values without quotes. *)
Lemma Evaluate_secret_compared :
  Plugin.Evaluate Govaluate.model_library Example.hasSecret (Example.request "GET" "secret")
  = Returned (Some (Govaluate.VBool true), None)
  /\ Plugin.Evaluate Govaluate.model_library Example.hasSecret (Example.request "GET" "guess")
     = Returned (Some (Govaluate.VBool false), None).
Proof. split; reflexivity. Qed.

Lemma manual_certificate_first_witness :
  Auto (Example.server true true) = true
  /\ Example.GetCertificate (Example.server true true) (mkClientHello "manual.com" [])
     = ((Some Example.manualCert, None), Example.server true true).
Proof.
  split; [reflexivity|].
  unfold Example.GetCertificate. apply manual_certificate_first. reflexivity.
Defined.

(** C2 as stated fails: with [auto] off and no certificate loaded for the
    name, the callback returns no certificate and no error. *)
Lemma GetCertificate_nil_nil :
  NameToCertificate (Example.server false false) !! "b.com" = None
  /\ Auto (Example.server false false) = false
  /\ fst (Example.GetCertificate (Example.server false false) (mkClientHello "b.com" []))
     = (None, None).
Proof. repeat split. Qed.

Lemma no_certificate_witness :
  Example.GetCertificate (Example.server false false) (mkClientHello "b.com" [])
  = ((None, None), Example.server false false)
  /\ fst (Example.GetCertificate (Example.server true false) (mkClientHello "b.com" []))
     = (None, Some (ErrExternal "acme/autocert: host not configured in HostWhitelist")).
Proof.
  unfold Example.GetCertificate. split.
  - apply no_certificate; reflexivity.
  - apply no_certificate; reflexivity.
Defined.

Lemma served_keys_are_pinned_witness :
  "sha256:rsa-leaf" ∈ PinsFor (pinCache (snd (Example.GetCertificate (Example.server true true) Example.rsaHello))) "a.com"
  /\ exists a'',
       Example.GetCertificate
         (snd (Example.GetCertificate (Example.server true true) Example.rsaHello))
         Example.rsaHello
       = ((Some Example.rsaChain, None), a'')
       /\ pinCache a''
          = pinCache (snd (Example.GetCertificate (Example.server true true) Example.rsaHello)).
Proof.
  destruct (served_keys_are_pinned string Example.parse Example.marshal Example.sha
              Example.b64 Example.manager (Example.server true true) Example.rsaHello
              Example.rsaChain _ eq_refl eq_refl eq_refl eq_refl) as [Hpinned Hagain].
  split.
  - destruct (Hpinned "rsa-leaf") as (key & pubKeyDer & [= <-] & [= <-] & Hin);
      [left | exact Hin].
  - apply (Hagain Example.manager Example.rsaChain eq_refl). eauto.
Defined.

Lemma pins_written_only_when_provisioned_witness :
  pinCache (snd (Example.GetCertificate (Example.server true true)
                   (mkClientHello "manual.com" [])))
  = pinCache (Example.server true true)
  /\ pinCache (snd (Example.GetCertificate (Example.server true false) Example.rsaHello))
     = pinCache (Example.server true false).
Proof.
  unfold Example.GetCertificate. split.
  - apply pins_written_only_when_provisioned. left. now exists Example.manualCert.
  - apply pins_written_only_when_provisioned. right. left. reflexivity.
Defined.

(** ** Two handshakes at once *)

(** C6 at work.  Two clients open [a.com], which has no pins yet, one
    served the RSA chain and one the ECDSA chain.  One after the other,
    the handshakes leave the pins of both chains.  Interleaved so that
    both read the host's pins before either stores them, each fills a
    set of its own, both take the mutex in turn for the store, both
    succeed, and the pin of the RSA leaf is gone. *)
Theorem concurrent_handshakes_lose_a_pin :
  let sh0 := mkShared (Example.server true true) false in
  let pool0 := [(Example.rsaHello, AtEntry); (Example.ecHello, AtEntry)] in
  let served := [Done (Some Example.rsaChain, None); Done (Some Example.ecChain, None)] in
  let in_turn := Example.run [0; 0; 0; 0; 0; 0; 1; 1; 1; 1; 1; 1] pool0 sh0 in
  let at_once := Example.run [0; 1; 0; 0; 1; 1; 0; 0; 0; 1; 1; 1] pool0 sh0 in
  snd <$> fst in_turn = served
  /\ snd <$> fst at_once = served
  /\ locked (snd at_once) = false
  /\ "sha256:rsa-leaf" ∈ PinsFor (pinCache (tls (snd in_turn))) "a.com"
  /\ "sha256:rsa-leaf" ∉ PinsFor (pinCache (tls (snd at_once))) "a.com".
Proof.
  cbv zeta. do 3 (split; [reflexivity|]). split.
  - apply (bool_decide_unpack _). vm_compute. exact I.
  - apply (bool_decide_unpack _). vm_compute. exact I.
Qed.

(** * Further properties *)

(** ** Templates: what is parsed and what is rendered *)

Import Fasttemplate Rendering.

Lemma HasPrefix_slice_to (n : nat) (s p : string) :
  HasPrefix (slice_to n s) p = true -> HasPrefix s p = true.
Proof.
  revert n s; induction p as [|x p IH]; intros n s; [reflexivity|].
  destruct n as [|n], s as [|c s]; simpl; try discriminate.
  destruct (Ascii.eqb c x); [apply IH | discriminate].
Qed.

(** Before its first occurrence, a separator does not occur. *)
Lemma Index_slice_to (s sep : string) (n : nat) :
  0 < String.length sep -> Index s sep = Some n -> Index (slice_to n s) sep = None.
Proof.
  intros Hsep. revert n; induction s as [|c s IH]; intros n; rewrite Index_unfold;
    destruct (HasPrefix _ sep) eqn:Hp.
  - intros [= <-]. now destruct sep.
  - discriminate.
  - intros [= <-]. destruct sep; [simpl in Hsep; lia | reflexivity].
  - destruct (Index s sep) as [m|] eqn:Hm; simpl; [|discriminate].
    intros [= <-]. simpl. rewrite Index_unfold.
    destruct (HasPrefix (String c (slice_to m s)) sep) eqn:Hp'.
    + apply (HasPrefix_slice_to (S m) (String c s)) in Hp'. congruence.
    + now rewrite <- (Index_unfold (slice_to m s) sep), (IH m eq_refl).
Qed.

Lemma interleave_cons (g : string -> string) (text : string) (texts : list string)
    (tag : string) (tags : list string) :
  interleave g (text :: texts) (tag :: tags) = text ++ g tag ++ interleave g texts tags.
Proof. reflexivity. Qed.

(** What the scan of [Reset] adds to the texts and tags it is given: the
    pieces of the string it scans, none of them with a delimiter of its
    own kind in it. *)
Lemma Reset_scan_pieces rounds tmpl s texts tags texts' tags' :
  Reset_scan rounds tmpl "${" "}" s texts tags = Some (inl (texts', tags')) ->
  exists ts gs,
    texts' = (texts ++ ts)%list /\ tags' = (tags ++ gs)%list
    /\ length ts = S (length gs)
    /\ interleave written ts gs = s
    /\ Forall (fun text => Index text "${" = None) ts
    /\ Forall (fun tag => Index tag "}" = None) gs.
Proof.
  revert s texts tags; induction rounds as [|rounds IH];
    intros s texts tags; simpl; [discriminate|].
  destruct (Index s "${") as [n|] eqn:Hn.
  - destruct (Index (slice_from (n + 2) s) "}") as [m|] eqn:Hm; [|discriminate].
    intros H. apply IH in H as (ts & gs & -> & -> & Hlen & Hsrc & Hts & Hgs).
    exists (slice_to n s :: ts), (slice_to m (slice_from (n + 2) s) :: gs).
    rewrite <- !app_assoc. repeat split.
    + simpl. now rewrite Hlen.
    + rewrite interleave_cons, Hsrc. unfold written. rewrite !append_assoc.
      apply Index_Some_split in Hm. change (String.length "}") with 1 in Hm.
      rewrite <- Hm. apply Index_Some_split in Hn.
      change (String.length "${") with 2 in Hn. now rewrite <- Hn.
    + constructor; [|assumption]. apply Index_slice_to; [simpl; lia | assumption].
    + constructor; [|assumption]. apply Index_slice_to; [simpl; lia | assumption].
  - intros [= <- <-]. exists [s], []. rewrite app_nil_r.
    repeat split; auto.
Qed.

Lemma New_parts (s : string) (ft : Template) :
  New s "${" "}" = Returned ft ->
  interleave written (pieces ft).1 (pieces ft).2 = s
  /\ length (pieces ft).1 = S (length (pieces ft).2)
  /\ Forall (fun text => Index text "${" = None) (pieces ft).1
  /\ Forall (fun tag => Index tag "}" = None) (pieces ft).2.
Proof.
  unfold New, NewTemplate, Reset. simpl Nat.eqb at 1 2. cbv iota.
  destruct (Nat.eqb_spec (Count s "${") 0) as [Hc|Hc].
  - intros [= <-]. apply Count_zero in Hc. unfold pieces. simpl. auto.
  - destruct (Reset_scan _ s "${" "}" s [] []) as [[[txts tgs]|e]|] eqn:Hscan;
      try discriminate.
    intros [= <-].
    apply Reset_scan_pieces in Hscan as (ts & gs & -> & -> & Hlen & Hsrc & Hts & Hgs).
    unfold pieces. simpl. destruct ts as [|t0 ts]; [discriminate|]. simpl. auto.
Qed.

(** X1: a template that [New] returns keeps its whole source: the pieces it
    executes, with the placeholders written back between the texts, are
    the source; there is one text more than tags; no text holds a start
    tag and no tag holds an end tag. *)
Theorem New_pieces (s : string) (ft : Template) :
  New s "${" "}" = Returned ft ->
  interleave written (pieces ft).1 (pieces ft).2 = s
  /\ length (pieces ft).1 = S (length (pieces ft).2)
  /\ Forall (fun text => Index text "${" = None) (pieces ft).1
  /\ Forall (fun tag => Index tag "}" = None) (pieces ft).2.
Proof. apply New_parts. Qed.

Lemma New_pieces_witness :
  interleave written ["/users/"; "?page="; ""] ["path:id"; "query:p"]
  = "/users/${path:id}?page=${query:p}".
Proof.
  apply (New_pieces "/users/${path:id}?page=${query:p}"
           (mkTemplate "/users/${path:id}?page=${query:p}" "${" "}"
              ["/users/"; "?page="; ""] ["path:id"; "query:p"])).
  reflexivity.
Defined.

(** [mapTag] appends to the buffer and leaves what is in it. *)
Lemma mapTag_appends (b : Buffer) (c : Plugin.Context) (t : string) :
  Plugin.mapTag b c t = b ++ resolve c t.
Proof.
  unfold resolve, Plugin.mapTag, WriteString.
  repeat match goal with |- context [if ?x then _ else _] => destruct x end;
    try reflexivity.
  now rewrite append_empty_r.
Qed.

(** The offsets of [mapTag] fit its prefixes.  Whatever the key, the
    tags [header:key], [path:key], [query:key] and [form:key] write the
    header, path parameter, query parameter and form value of that key,
    and the tag [path] alone writes the URL path. *)
Lemma mapTag_dispatch (b : Buffer) (c : Plugin.Context) (key : string) :
  Plugin.mapTag b c ("header:" ++ key) = b ++ Plugin.Request_Header_Get c key
  /\ Plugin.mapTag b c ("path:" ++ key) = b ++ Plugin.Param c key
  /\ Plugin.mapTag b c ("query:" ++ key) = b ++ Plugin.QueryParam c key
  /\ Plugin.mapTag b c ("form:" ++ key) = b ++ Plugin.FormValue c key
  /\ Plugin.mapTag b c "path" = b ++ Plugin.Request_URL_Path c.
Proof. repeat split; reflexivity. Qed.

(** The loop of [ExecuteFunc] on a buffer, with a callback that appends
    [g tag]: followed by the last text, what it writes is the rest of the
    texts with the tags' values between them. *)
Lemma ExecuteFunc_loop_interleave (t : Template) (f : TagFunc (W := Buffer))
    (g : string -> string) :
  (forall w tag, exists ni, f w tag = (w ++ g tag, ni, None)) ->
  length (texts t) = S (length (tags t)) ->
  forall k i w nn, i + k = length (tags t) ->
    exists w' nn',
      ExecuteFunc_loop k i t f w nn = Returned (w', nn', None)
      /\ forall text, texts t !! length (tags t) = Some text ->
           w' ++ text = w ++ interleave g (drop i (texts t)) (drop i (tags t)).
Proof.
  intros Hf Hlen. induction k as [|k IH]; intros i w nn Hi; simpl.
  - exists w, nn. split; [reflexivity|]. intros text Htext.
    replace i with (length (tags t)) by lia.
    rewrite drop_all. apply drop_S in Htext. rewrite Htext.
    rewrite (drop_ge (texts t) (S _)) by lia. reflexivity.
  - destruct (lookup_lt_is_Some_2 (texts t) i) as [text Htext]; [lia|].
    destruct (lookup_lt_is_Some_2 (tags t) i) as [tag Htag]; [lia|].
    rewrite Htext, Htag. cbn.
    destruct (Hf (w ++ text) tag) as [ni ->].
    destruct (IH (S i) ((w ++ text) ++ g tag) (nn + Z.of_nat (String.length text) + ni)%Z)
      as (w' & nn' & -> & Hw'); [lia|].
    exists w', nn'. split; [reflexivity|]. intros lastText Hlast.
    rewrite (Hw' lastText Hlast).
    rewrite (drop_S _ _ _ Htext), (drop_S _ _ _ Htag), interleave_cons.
    now rewrite !append_assoc.
Qed.

(** [ExecuteFunc] on a template that [New] returned: the pieces with the
    tags' values between the texts, appended to the buffer. *)
Lemma ExecuteFunc_interleave (s : string) (ft : Template) (f : TagFunc (W := Buffer))
    (g : string -> string) (w : Buffer) :
  New s "${" "}" = Returned ft ->
  (forall w tag, exists ni, f w tag = (w ++ g tag, ni, None)) ->
  exists nn,
    ExecuteFunc ft w f
    = Returned (w ++ interleave g (pieces ft).1 (pieces ft).2, nn, None).
Proof.
  intros Hnew Hf. apply New_parts in Hnew as (_ & Hlen & _).
  unfold ExecuteFunc, pieces in *.
  destruct (texts ft) as [|t0 ts] eqn:Htexts; [cbn; eauto|].
  rewrite <- Htexts in *. simpl in Hlen. rewrite Hlen.
  destruct (ExecuteFunc_loop_interleave ft f g Hf Hlen (length (tags ft)) 0 w 0%Z)
    as (w' & nn' & -> & Hw'); [lia|].
  destruct (lookup_lt_is_Some_2 (texts ft) (length (tags ft))) as [text Htext]; [lia|].
  rewrite Htext. cbn. rewrite (Hw' text Htext). eauto.
Qed.

(** X3: rendering a template writes its source with every placeholder
    replaced by the value of its tag in the request. *)
Theorem Execute_substitutes (s : string) (t : Plugin.Template) (c : Plugin.Context) :
  Plugin.NewTemplate s = Returned t ->
  s = interleave written (pieces (Plugin.Template_ t)).1 (pieces (Plugin.Template_ t)).2
  /\ Plugin.Execute t c
     = Returned (interleave (resolve c) (pieces (Plugin.Template_ t)).1
                   (pieces (Plugin.Template_ t)).2, None).
Proof.
  unfold Plugin.NewTemplate, Plugin.Execute.
  destruct (New s "${" "}") as [ft|] eqn:Hnew; [|discriminate].
  intros [= <-]. simpl. split; [symmetry; now apply New_parts|].
  destruct (ExecuteFunc_interleave s ft
              (fun buf tag => (Plugin.mapTag buf c tag, 0%Z, None)) (resolve c) "" Hnew)
    as [nn ->]; [|reflexivity].
  intros w tag. exists 0%Z. now rewrite mapTag_appends.
Qed.

Lemma Execute_substitutes_witness :
  Plugin.Execute
    (Plugin.mkTemplate
       (mkTemplate "${scheme}://a.com${uri}" "${" "}" [""; "://a.com"; ""] ["scheme"; "uri"]))
    (Example.request "GET" "")
  = Returned ("https://a.com/login?token=...", None).
Proof. apply (Execute_substitutes "${scheme}://a.com${uri}"). reflexivity. Defined.

(** An end tag behind a tag without one is found at the tag's end. *)
Lemma Index_end_tag (tag : string) :
  Index tag "}" = None -> Index (tag ++ "}") "}" = Some (String.length tag).
Proof.
  induction tag as [|x tag IH]; [reflexivity|].
  rewrite append_cons, !(Index_unfold (String _ _)).
  change (HasPrefix (String x (tag ++ "}")) "}") with (HasPrefix (String x tag) "}").
  destruct (HasPrefix (String x tag) "}"); [discriminate|].
  destruct (Index tag "}"); [discriminate|]. intros _. now rewrite IH.
Qed.

Lemma slice_to_append (a b : string) : slice_to (String.length a) (a ++ b) = a.
Proof.
  induction a as [|x a IH]; [now destruct b|].
  rewrite append_cons. simpl. now rewrite IH.
Qed.

Lemma slice_from_past (a : string) (n : nat) (b : string) :
  slice_from (String.length a + n) (a ++ b) = slice_from n b.
Proof.
  induction a as [|x a IH]; [reflexivity|]. rewrite append_cons. exact IH.
Qed.

(** The template of one placeholder. *)
Lemma New_single (tag : string) :
  Index tag "}" = None ->
  New ("${" ++ tag ++ "}") "${" "}"
  = Returned (mkTemplate ("${" ++ tag ++ "}") "${" "}" [""; ""] [tag]).
Proof.
  intros Htag. unfold New, NewTemplate, Reset, Count.
  change ("${" ++ tag ++ "}") with (String "$" (String "{" (tag ++ "}"))).
  cbn [Nat.eqb String.length Count_rounds Reset_scan].
  change (Index (String "$" (String "{" (tag ++ "}"))) "${") with (Some 0).
  cbn [Nat.eqb Nat.add slice_from slice_to app].
  rewrite (Index_end_tag tag Htag).
  rewrite slice_to_append.
  replace (slice_from (String.length tag + 1) (tag ++ "}")) with ""
    by (rewrite slice_from_past; reflexivity).
  destruct (String.length (tag ++ "}")); reflexivity.
Qed.

(** X2: placeholders with a prefix look the key up that follows it.  For
    every key without an end tag in it, the templates [${header:key}],
    [${path:key}], [${query:key}] and [${form:key}] are built without
    panic and render as the request's header, path parameter, query
    parameter and form value of exactly that key. *)
Theorem Execute_looks_up (c : Plugin.Context) (key : string) :
  Index key "}" = None ->
  let render s := Plugin.bind (Plugin.NewTemplate s) (fun t => Plugin.Execute t c) in
  render ("${" ++ ("header:" ++ key) ++ "}") = Returned (Plugin.Request_Header_Get c key, None)
  /\ render ("${" ++ ("path:" ++ key) ++ "}") = Returned (Plugin.Param c key, None)
  /\ render ("${" ++ ("query:" ++ key) ++ "}") = Returned (Plugin.QueryParam c key, None)
  /\ render ("${" ++ ("form:" ++ key) ++ "}") = Returned (Plugin.FormValue c key, None).
Proof.
  intros Hkey render.
  assert (Hsingle : forall pre value,
            Index (pre ++ key) "}" = None ->
            Plugin.mapTag "" c (pre ++ key) = value ->
            render ("${" ++ (pre ++ key) ++ "}") = Returned (value, None)).
  { intros pre value Htag Hvalue. unfold render, Plugin.NewTemplate.
    pose proof (New_single _ Htag) as Hnew. rewrite Hnew.
    unfold Plugin.bind, Plugin.Execute. cbn [Plugin.Template_].
    destruct (ExecuteFunc_interleave _ _
                (fun buf tag => (Plugin.mapTag buf c tag, 0%Z, None)) (resolve c) "" Hnew)
      as [nn ->].
    - intros w tag. exists 0%Z. now rewrite mapTag_appends.
    - unfold pieces, resolve. cbn [texts tags template fst snd interleave].
      rewrite Hvalue, !append_empty_l. now rewrite append_empty_r. }
  assert (Hprefixed : forall pre,
            Govaluate.existsb_string (fun x => Ascii.eqb x "}") pre = false ->
            Index (pre ++ key) "}" = None).
  { intros pre. induction pre as [|x pre IH]; [intros _; exact Hkey|].
    intros H. simpl in H. apply orb_false_iff in H as [Hx Hp].
    rewrite append_cons, Index_unfold.
    change (HasPrefix (String x (pre ++ key)) "}") with (if Ascii.eqb x "}" then true else false).
    rewrite Hx, (IH Hp). reflexivity. }
  repeat split; apply Hsingle; try (apply Hprefixed; reflexivity); reflexivity.
Qed.

Lemma Execute_looks_up_witness :
  Plugin.bind (Plugin.NewTemplate "${query:token}")
    (fun t => Plugin.Execute t (Example.request "GET" "abc"))
  = Returned ("abc", None).
Proof.
  apply (Execute_looks_up (Example.request "GET" "abc") "token"). reflexivity.
Defined.

Lemma Evaluate_on_pieces (lib : Govaluate.Library) (s : string)
    (e : Plugin.Expression) (c : Plugin.Context) :
  Plugin.NewExpression s = Returned e ->
  let text := interleave (quoted c) (pieces (Plugin.Expression_ e)).1
                (pieces (Plugin.Expression_ e)).2 in
  Plugin.Evaluate lib e c
  = Returned match Govaluate.NewEvaluableExpression lib text with
             | inl expr => Govaluate.Evaluate_nil lib expr
             | inr err => (None, Some err)
             end.
Proof.
  unfold Plugin.NewExpression, Plugin.Evaluate, Plugin.expressionText.
  destruct (New s "${" "}") as [ft|] eqn:Hnew; [|discriminate].
  intros [= <-]. simpl.
  destruct (ExecuteFunc_interleave s ft (Plugin.quoteTag c) (quoted c) "" Hnew)
    as [nn ->].
  - intros w tag. exists 0%Z. unfold Plugin.quoteTag, WriteString, quoted.
    now rewrite mapTag_appends, !append_assoc.
  - rewrite append_empty_l. now destruct (Govaluate.NewEvaluableExpression lib _).
Qed.

(** X4: evaluating an expression never fails in the template stage.  The
    text govaluate receives is the source with every placeholder replaced
    by the value of its tag between single quotes, and the result is the
    library's: its error if the text does not parse, its evaluation
    otherwise. *)
Theorem Evaluate_substitutes (lib : Govaluate.Library) (s : string)
    (e : Plugin.Expression) (c : Plugin.Context) :
  Plugin.NewExpression s = Returned e ->
  s = interleave written (pieces (Plugin.Expression_ e)).1 (pieces (Plugin.Expression_ e)).2
  /\ Plugin.Evaluate lib e c
     = Returned match Govaluate.NewEvaluableExpression lib
                        (interleave (quoted c) (pieces (Plugin.Expression_ e)).1
                           (pieces (Plugin.Expression_ e)).2) with
                | inl expr => Govaluate.Evaluate_nil lib expr
                | inr err => (None, Some err)
                end.
Proof.
  intros Hnew. split; [|now apply Evaluate_on_pieces with s].
  unfold Plugin.NewExpression in Hnew.
  destruct (New s "${" "}") as [ft|] eqn:Hft; [|discriminate].
  injection Hnew as <-. symmetry. now apply New_parts.
Qed.

Lemma Evaluate_substitutes_witness :
  Plugin.Evaluate Govaluate.model_library Example.hasSecret (Example.request "GET" "guess")
  = Returned (Some (Govaluate.VBool false), None).
Proof.
  rewrite (proj2 (Evaluate_substitutes _ "${query:token} == 'secret'"
                    Example.hasSecret _ eq_refl)).
  reflexivity.
Defined.

(** The scan of [Reset] fails only behind a start tag that no end tag
    follows. *)
Lemma Reset_scan_error rounds tmpl s texts tags (e : error) :
  Reset_scan rounds tmpl "${" "}" s texts tags = Some (inr e) ->
  exists pre rest,
    e = ErrCannotFindEndTag "}" tmpl rest
    /\ s = pre ++ "${" ++ rest /\ Index rest "}" = None.
Proof.
  revert s texts tags; induction rounds as [|rounds IH];
    intros s texts tags; simpl; [discriminate|].
  destruct (Index s "${") as [n|] eqn:Hn; [|discriminate].
  apply Index_Some_split in Hn. change (String.length "${") with 2 in Hn.
  destruct (Index (slice_from (n + 2) s) "}") as [m|] eqn:Hm.
  - intros H. apply IH in H as (pre & rest & -> & Hs & Hrest).
    apply Index_Some_split in Hm. change (String.length "}") with 1 in Hm.
    exists (slice_to n s ++ "${" ++ slice_to m (slice_from (n + 2) s) ++ "}" ++ pre), rest.
    split; [reflexivity|]. split; [|assumption].
    rewrite !append_assoc, <- Hs, <- Hm. exact Hn.
  - intros [= <-]. eauto.
Qed.

(** X5: [NewTemplate] returns a template or panics with one error, that the
    end tag was not found, and then the source has a start tag with no end
    tag anywhere behind it. *)
Theorem NewTemplate_panics_unclosed (s : string) (p : panic_value) :
  Plugin.NewTemplate s = Panicked p ->
  exists pre rest,
    p = PanicError (ErrCannotFindEndTag "}" s rest)
    /\ s = pre ++ "${" ++ rest /\ Index rest "}" = None.
Proof.
  unfold Plugin.NewTemplate.
  destruct (New s "${" "}") as [ft|p'] eqn:Hnew; [discriminate|].
  intros [= <-]. pose proof (New_total s) as Htotal. revert Hnew Htotal.
  unfold New, NewTemplate, Reset. simpl Nat.eqb at 1 2. cbv iota.
  destruct (Nat.eqb (Count s "${") 0); [discriminate|].
  destruct (Reset_scan _ s "${" "}" s [] []) as [[[txts tgs]|e]|] eqn:Hscan;
    try discriminate.
  - intros [= <-] _. apply Reset_scan_error in Hscan as (pre & rest & -> & Hs & Hrest).
    eauto.
  - intros [= <-] Htotal. now destruct Htotal.
Qed.

Lemma NewTemplate_panics_unclosed_witness :
  exists pre rest,
    PanicError (ErrCannotFindEndTag "}" "${a} and ${b" "b")
    = PanicError (ErrCannotFindEndTag "}" "${a} and ${b" rest)
    /\ "${a} and ${b" = pre ++ "${" ++ rest /\ Index rest "}" = None.
Proof. apply NewTemplate_panics_unclosed. reflexivity. Defined.

(** ** Expressions *)

Import Govaluate.

(** X6: an expression without placeholders is handed to govaluate as it is
    written, so its result is the same for every request. *)
Theorem Evaluate_constant (lib : Library) (s : string) (e : Plugin.Expression)
    (c : Plugin.Context) :
  PluginSpec.hasPlaceholder s = false ->
  Plugin.NewExpression s = Returned e ->
  Plugin.Evaluate lib e c
  = Returned match NewEvaluableExpression lib s with
             | inl expr => Evaluate_nil lib expr
             | inr err => (None, Some err)
             end.
Proof.
  intros Hno Hnew. rewrite (Evaluate_on_pieces lib s e c Hnew). cbv zeta.
  unfold Plugin.NewExpression in Hnew.
  destruct (New s "${" "}") as [ft|] eqn:Hft; [|discriminate].
  injection Hnew as <-. simpl.
  apply New_inv in Hft as [Htmpl [[_ Htexts]|[Hyes _]]]; [|congruence].
  unfold pieces. now rewrite Htexts, Htmpl.
Qed.

Lemma Evaluate_constant_witness :
  Plugin.Evaluate model_library
    (Plugin.mkExpression (mkTemplate "'a' != 'b'" "${" "}" [] []))
    (Example.request "GET" "")
  = Returned (Some (VBool true), None).
Proof.
  rewrite (Evaluate_constant _ "'a' != 'b'" _ _ eq_refl eq_refl). reflexivity.
Defined.

Lemma existsb_string_append (p : ascii -> bool) (a b : string) :
  existsb_string p (a ++ b) = existsb_string p a || existsb_string p b.
Proof.
  induction a as [|x a IH]; [reflexivity|].
  rewrite append_cons. simpl. now rewrite IH, orb_assoc.
Qed.

(** The model on a quoted value compared with a literal. *)
Lemma model_compares_quoted (v : string) :
  existsb_string (fun c => negb (PluginSpec.plain c)) v = false ->
  existsb_string isDigit v = false ->
  existsb_string (fun c => negb (is7bit c)) v = false ->
  model_NewEvaluableExpression ("'" ++ (v ++ "'") ++ " == 'GET'")
  = Some (inl (Single (Compare "==" v "GET"))).
Proof.
  intros Hplain Hdigit H7.
  assert (Htext : "'" ++ (v ++ "'") ++ " == 'GET'" = String quote (v ++ String quote " == 'GET'")).
  { rewrite append_assoc. reflexivity. }
  rewrite Htext. unfold model_NewEvaluableExpression.
  replace (existsb_string (fun c => negb (is7bit c)) (String quote (v ++ String quote " == 'GET'")))
    with false
    by (simpl; rewrite existsb_string_append, H7; reflexivity).
  assert (Hlen : String.length (String quote (v ++ String quote " == 'GET'"))
                 = S (S (S (String.length v + 8)))).
  { simpl. rewrite length_append. simpl. lia. }
  rewrite Hlen.
  change (parseTokens (S (S (S (S (String.length v + 8))))) ?s)
    with (match readToken s with
          | None => None
          | Some (inr e) => Some (inr e)
          | Some (inl None) => Some (inl [])
          | Some (inl (Some (t, rest))) =>
              match parseTokens (S (S (S (String.length v + 8)))) rest with
              | Some (inl ts) => Some (inl (t :: ts))
              | other => other
              end
          end).
  rewrite quoted_plain_value_is_one_literal by assumption.
  reflexivity.
Qed.

(** X7: with a method that holds no quote, backslash, digit or byte above
    127 (as every method name does), the expression [${method} == 'GET']
    is the comparison of the method with [GET]: true for [GET] and false
    for every other such method, without error. *)
Theorem Evaluate_compares_method (lib : Library) (e : Plugin.Expression)
    (c : Plugin.Context) :
  agrees lib ->
  Plugin.NewExpression "${method} == 'GET'" = Returned e ->
  existsb_string (fun x => negb (PluginSpec.plain x) || isDigit x || negb (is7bit x))
    (Plugin.Request_Method c) = false ->
  Plugin.Evaluate lib e c
  = Returned (Some (VBool (String.eqb (Plugin.Request_Method c) "GET")), None).
Proof.
  intros Hlib [= <-] Hm.
  assert (Htext : Plugin.expressionText
            (Plugin.mkExpression
               (Fasttemplate.mkTemplate "${method} == 'GET'" "${" "}" [""; " == 'GET'"] ["method"])) c
          = Returned ("'" ++ (Plugin.Request_Method c ++ "'") ++ " == 'GET'", 9%Z, None))
    by reflexivity.
  apply (Evaluate_of_text lib _ c _ _
           (Single (Compare "==" (Plugin.Request_Method c) "GET")) Hlib Htext).
  revert Hm. generalize (Plugin.Request_Method c) as v. intros v Hv.
  apply model_compares_quoted.
  - induction v as [|x v IH]; [reflexivity|]. simpl in *.
    apply orb_false_iff in Hv as [Hx Hv]. apply orb_false_iff in Hx as [Hx _].
    apply orb_false_iff in Hx as [Hx _]. now rewrite Hx, IH.
  - induction v as [|x v IH]; [reflexivity|]. simpl in *.
    apply orb_false_iff in Hv as [Hx Hv]. apply orb_false_iff in Hx as [Hx _].
    apply orb_false_iff in Hx as [_ Hx]. now rewrite Hx, IH.
  - induction v as [|x v IH]; [reflexivity|]. simpl in *.
    apply orb_false_iff in Hv as [Hx Hv]. apply orb_false_iff in Hx as [_ Hx].
    now rewrite Hx, IH.
Qed.

Lemma Evaluate_compares_method_witness :
  Plugin.Evaluate model_library Example.isGET (Example.request "DELETE" "")
  = Returned (Some (VBool false), None).
Proof.
  apply (Evaluate_compares_method model_library Example.isGET
           (Example.request "DELETE" "") model_library_agrees eq_refl).
  reflexivity.
Defined.

(** ** The plugin registry and [Decode] *)

Import Registry.

(** X8: [Decode] returns exactly on the records with a string [name], an
    [int] [order], a name the lookup resolves and fields mapstructure can
    decode; what it returns is the decoder's result on the plugin the
    lookup made from that name, that order and the skip expression
    [false]. *)
Theorem Decode_returns_iff
    (Lookup : Plugin.Base -> option Plugin.PluginValue)
    (decode : Plugin.RawPlugin -> Plugin.PluginValue -> Plugin.PluginValue + error)
    (r : Plugin.RawPlugin) (p : Plugin.PluginValue) :
  Plugin.Decode Lookup decode r = Returned p <->
  exists n z q,
    r !! "name" = Some (Plugin.IString n)
    /\ r !! "order" = Some (Plugin.IInt z)
    /\ Lookup (Plugin.mkBase n z "false") = Some q
    /\ decode r q = inl p.
Proof.
  unfold Plugin.Decode, Plugin.RawPlugin_Name, Plugin.RawPlugin_Order, Plugin.bind.
  split.
  - destruct (r !! "name") as [[n| | | | |]|]; try discriminate.
    destruct (r !! "order") as [[|z| | | |]|]; try discriminate.
    destruct (Lookup _) as [q|] eqn:Hq; [|discriminate].
    destruct (decode r q) as [p'|err] eqn:Hd; [|discriminate].
    intros [= <-]. exists n, z, q. auto.
  - intros (n & z & q & -> & -> & -> & ->). reflexivity.
Qed.



Lemma Decode_returns_iff_witness :
  exists n z q,
    (<["order" := Plugin.IInt 2]> {["name" := Plugin.IString "gzip"]} : Plugin.RawPlugin)
      !! "name" = Some (Plugin.IString n)
    /\ (<["order" := Plugin.IInt 2]> {["name" := Plugin.IString "gzip"]} : Plugin.RawPlugin)
         !! "order" = Some (Plugin.IInt z)
    /\ Plugin.DefaultLookup (Plugin.mkBase n z "false") = Some q
    /\ Example.decodeAll (<["order" := Plugin.IInt 2]> {["name" := Plugin.IString "gzip"]}) q
       = inl (Plugin.mkPlugin Plugin.Gzip (Plugin.mkBase "gzip" 2 "false")
                (<["order" := Plugin.IInt 2]> {["name" := Plugin.IString "gzip"]})).
Proof. apply Decode_returns_iff. reflexivity. Defined.

(** X10: [DefaultLookup] resolves every registered name to the plugin type
    of that name, and nothing else: the plugin it returns carries the base
    it was given, and the name in that base is the one its type is
    registered under. *)
Theorem DefaultLookup_registry :
  (forall (k : Plugin.Kind) (order : Z) (skip : string),
     Plugin.DefaultLookup (Plugin.mkBase (kindName k) order skip)
     = Some (Plugin.mkPlugin k (Plugin.mkBase (kindName k) order skip) ∅))
  /\ (forall (b : Plugin.Base) (p : Plugin.PluginValue),
        Plugin.DefaultLookup b = Some p ->
        Plugin.base p = b /\ Plugin.name b = kindName (Plugin.kind p)).
Proof.
  split.
  - intros [] order skip; reflexivity.
  - intros b p. unfold Plugin.DefaultLookup, Plugin.fresh.
    repeat match goal with
           | |- context [String.eqb ?x ?y] =>
               destruct (String.eqb_spec x y) as [->|_];
               [intros [= <-]; split; reflexivity|]
           end.
    discriminate.
Qed.

(** ** Certificate selection: results, pins and the mutex *)

Import Armor PinSpec.

Lemma separate_newPinning : separate newPinning.
Proof. split; intros *; unfold newPinning; simpl; now rewrite lookup_empty. Qed.

Section Handshakes.
Variable PublicKey : Type.
Variable x509_ParseCertificate : string -> PublicKey + error.
Variable x509_MarshalPKIXPublicKey : PublicKey -> string + error.
Variable sha256_Sum256 : string -> string.
Variable base64_EncodeToString : string -> string.

Local Abbreviation keyHash :=
  (Armor.keyHash PublicKey x509_ParseCertificate x509_MarshalPKIXPublicKey
     sha256_Sum256 base64_EncodeToString).
Local Abbreviation pinChain :=
  (Armor.pinChain PublicKey x509_ParseCertificate x509_MarshalPKIXPublicKey
     sha256_Sum256 base64_EncodeToString).
Local Abbreviation GetCertificate :=
  (Armor.GetCertificate PublicKey x509_ParseCertificate x509_MarshalPKIXPublicKey
     sha256_Sum256 base64_EncodeToString).
Local Abbreviation step :=
  (Armor.step PublicKey x509_ParseCertificate x509_MarshalPKIXPublicKey
     sha256_Sum256 base64_EncodeToString).
Local Abbreviation run :=
  (Armor.run PublicKey x509_ParseCertificate x509_MarshalPKIXPublicKey
     sha256_Sum256 base64_EncodeToString).
Local Abbreviation turn :=
  (Armor.turn PublicKey x509_ParseCertificate x509_MarshalPKIXPublicKey
     sha256_Sum256 base64_EncodeToString).

Implicit Types (manager : ClientHelloInfo -> Certificate + error).
Implicit Types (a : TLS) (P : pinning) (hello : ClientHelloInfo).

(** X11: the callback returns a certificate or an error, never both.  A
    certificate is the one loaded for the name or, with none loaded and
    [auto] on, the manager's; an error comes with [auto] on only; neither
    comes exactly when no certificate is loaded for the name and [auto]
    is off. *)
Theorem GetCertificate_result manager a hello :
  match fst (GetCertificate manager a hello) with
  | (Some cert, None) =>
      NameToCertificate a !! ServerName hello = Some cert
      \/ (NameToCertificate a !! ServerName hello = None
          /\ Auto a = true /\ manager hello = inl cert)
  | (None, Some err) => NameToCertificate a !! ServerName hello = None /\ Auto a = true
  | (None, None) => NameToCertificate a !! ServerName hello = None /\ Auto a = false
  | (Some _, Some _) => False
  end.
Proof.
  unfold Armor.GetCertificate.
  destruct (NameToCertificate a !! ServerName hello) as [manual|]; simpl; [auto|].
  destruct (Auto a); simpl; [|auto].
  destruct (manager hello) as [cert|err]; simpl; [|auto].
  destruct (KeyPinning a); simpl; [|auto].
  destruct (match pins (pinCache a) !! ServerName hello with
            | Some hostPins => (hostPins, pinCache a)
            | None => new_pins (pinCache a)
            end) as [hostPins P].
  destruct (pinChain (Certificate_ cert) hostPins P) as [P' [err|]]; simpl; auto.
Qed.

(** What the loop over a chain does to the cache: the host map and the
    other objects stay, the object it writes to gains the pins of the
    chain, and it leaves with the first error of the chain. *)
Lemma pinChain_exact (chain : list string) (hostPins : nat) P :
  pins (fst (pinChain chain hostPins P)) = pins P
  /\ next (fst (pinChain chain hostPins P)) = next P
  /\ (forall l, l <> hostPins ->
        objs (fst (pinChain chain hostPins P)) !! l = objs P !! l)
  /\ default ∅ (objs (fst (pinChain chain hostPins P)) !! hostPins)
     = default ∅ (objs P !! hostPins) ∪ chainPins keyHash chain
  /\ snd (pinChain chain hostPins P) = chainError keyHash chain.
Proof.
  revert P; induction chain as [|crtDer chain IH]; intros P; simpl.
  - repeat split. now rewrite (right_id_L ∅ (∪)).
  - destruct (keyHash crtDer) as [h|err]; simpl.
    + destruct (IH (m_insert hostPins h P)) as (Hpins & Hnext & Hobjs & Hpinned & Herr).
      simpl in *. rewrite lookup_insert_eq in Hpinned. simpl in Hpinned.
      repeat split; try assumption.
      * intros l Hl. rewrite (Hobjs l Hl). now apply lookup_insert_ne.
      * rewrite Hpinned. rewrite (comm_L (∪) {[h]}). now rewrite (assoc_L (∪)).
    + repeat split. now rewrite (right_id_L ∅ (∪)).
Qed.

(** X12: a resolution that provisions a certificate with key pinning on
    adds the pins of the served chain to the host's pin set and nothing
    else: the set afterwards is the set before with the chain's pins. *)
Theorem provisioned_pins_exact manager a hello (cert : Certificate) (a' : TLS) :
  NameToCertificate a !! ServerName hello = None ->
  Auto a = true ->
  KeyPinning a = true ->
  GetCertificate manager a hello = ((Some cert, None), a') ->
  PinsFor (pinCache a') (ServerName hello)
  = PinsFor (pinCache a) (ServerName hello) ∪ chainPins keyHash (Certificate_ cert).
Proof.
  intros Hno Hauto Hpin. unfold Armor.GetCertificate.
  rewrite Hno, Hauto. simpl. rewrite Hpin.
  destruct (manager hello) as [cert0|err]; [|discriminate].
  unfold PinsFor at 2.
  destruct (pins (pinCache a) !! ServerName hello) as [hostPins|] eqn:Hhost.
  - destruct (pinChain_exact (Certificate_ cert0) hostPins (pinCache a))
      as (_ & _ & _ & Hpinned & _).
    destruct (pinChain (Certificate_ cert0) hostPins (pinCache a)) as [P' [err|]];
      [discriminate|].
    intros [= <- <-]. unfold PinsFor. simpl in *. now rewrite lookup_insert_eq.
  - simpl.
    destruct (pinChain_exact (Certificate_ cert0) (next (pinCache a))
                (mkPinning (<[next (pinCache a) := ∅]> (objs (pinCache a)))
                   (S (next (pinCache a))) (pins (pinCache a))))
      as (_ & _ & _ & Hpinned & _).
    destruct (pinChain (Certificate_ cert0) _ _) as [P' [err|]]; [discriminate|].
    intros [= <- <-]. unfold PinsFor. simpl in *.
    now rewrite lookup_insert_eq, Hpinned, lookup_insert_eq.
Qed.

(** X13: with key pinning on, a provisioned chain with a certificate whose
    key cannot be hashed fails the handshake with that error, although the
    manager returned the certificate.  The host map stays as it is; but
    the pins of the certificates before the failing one are written into
    the pin set of a host that has one already. *)
Theorem failed_pinning manager a hello (cert : Certificate) (err : error) :
  NameToCertificate a !! ServerName hello = None ->
  Auto a = true ->
  KeyPinning a = true ->
  manager hello = inl cert ->
  chainError keyHash (Certificate_ cert) = Some err ->
  fst (GetCertificate manager a hello) = (None, Some err)
  /\ pins (pinCache (snd (GetCertificate manager a hello))) = pins (pinCache a)
  /\ PinsFor (pinCache (snd (GetCertificate manager a hello))) (ServerName hello)
     = match pins (pinCache a) !! ServerName hello with
       | Some _ => PinsFor (pinCache a) (ServerName hello)
                   ∪ chainPins keyHash (Certificate_ cert)
       | None => ∅
       end.
Proof.
  intros Hno Hauto Hpin Hm Herr. unfold Armor.GetCertificate.
  rewrite Hno, Hauto, Hm. simpl. rewrite Hpin. unfold PinsFor at 2.
  destruct (pins (pinCache a) !! ServerName hello) as [hostPins|] eqn:Hhost.
  - destruct (pinChain_exact (Certificate_ cert) hostPins (pinCache a))
      as (Hpins & _ & _ & Hpinned & Hsnd).
    destruct (pinChain (Certificate_ cert) hostPins (pinCache a)) as [P' [err'|]];
      simpl in *; [|congruence].
    split; [congruence|]. split; [assumption|].
    unfold PinsFor. simpl. now rewrite Hpins, Hhost.
  - simpl.
    destruct (pinChain_exact (Certificate_ cert) (next (pinCache a))
                (mkPinning (<[next (pinCache a) := ∅]> (objs (pinCache a)))
                   (S (next (pinCache a))) (pins (pinCache a))))
      as (Hpins & _ & _ & _ & Hsnd).
    destruct (pinChain (Certificate_ cert) _ _) as [P' [err'|]];
      simpl in *; [|congruence].
    split; [congruence|]. split; [assumption|].
    unfold PinsFor. simpl. now rewrite Hpins, Hhost.
Qed.

(** The cache after a resolution: as before, or what the loop over the
    provisioned chain made of it, with or without the store of the host's
    object. *)
Lemma GetCertificate_cache manager a hello :
  pinCache (snd (GetCertificate manager a hello)) = pinCache a
  \/ exists (cert : Certificate) (hostPins : nat) (P0 : pinning),
       (hostPins, P0) = match pins (pinCache a) !! ServerName hello with
                        | Some hostPins => (hostPins, pinCache a)
                        | None => new_pins (pinCache a)
                        end
       /\ (pinCache (snd (GetCertificate manager a hello))
           = fst (pinChain (Certificate_ cert) hostPins P0)
           \/ pinCache (snd (GetCertificate manager a hello))
              = pins_store (ServerName hello) hostPins
                  (fst (pinChain (Certificate_ cert) hostPins P0))).
Proof.
  unfold Armor.GetCertificate.
  destruct (NameToCertificate a !! ServerName hello) as [manual|]; [now left|].
  destruct (Auto a); [|now left].
  destruct (manager hello) as [cert|err]; [|now left].
  simpl. destruct (KeyPinning a); [|now left].
  destruct (match pins (pinCache a) !! ServerName hello with
            | Some hostPins => (hostPins, pinCache a)
            | None => new_pins (pinCache a)
            end) as [hostPins P0].
  right. exists cert, hostPins, P0. split; [reflexivity|].
  destruct (pinChain (Certificate_ cert) hostPins P0) as [P' [err|]]; simpl; auto.
Qed.

Lemma GetCertificate_separate_inv manager a hello :
  separate (pinCache a) -> separate (pinCache (snd (GetCertificate manager a hello))).
Proof.
  intros [Hbound Hinj].
  destruct (GetCertificate_cache manager a hello)
    as [->|(cert & hostPins & P0 & Hstart & Hcache)]; [now split|].
  destruct (pinChain_exact (Certificate_ cert) hostPins P0) as (Hpins & Hnext & _).
  destruct (pins (pinCache a) !! ServerName hello) as [l|] eqn:Hhost;
    injection Hstart as -> ->.
  - assert (Hsame : separate (fst (pinChain (Certificate_ cert) l (pinCache a)))).
    { split; rewrite Hpins, ?Hnext; assumption. }
    destruct Hcache as [->| ->]; [assumption|].
    destruct Hsame as [Hb Hi]. unfold pins_store. split; simpl.
    + intros h l'. rewrite Hpins, Hnext, insert_id by assumption. apply Hbound.
    + intros h1 h2 l'. rewrite Hpins, insert_id by assumption. apply Hinj.
  - simpl in Hpins, Hnext. destruct Hcache as [->| ->].
    + split; rewrite Hpins, ?Hnext; [|assumption].
      intros h l Hl. apply Hbound in Hl. lia.
    + unfold pins_store. split; simpl; rewrite Hpins, ?Hnext.
      * intros h l. rewrite lookup_insert. case_decide.
        -- intros [= <-]. lia.
        -- intros Hl. apply Hbound in Hl. lia.
      * intros h1 h2 l. rewrite !lookup_insert. repeat case_decide; subst.
        -- reflexivity.
        -- intros [= <-] Hl. apply Hbound in Hl. lia.
        -- intros Hl [= <-]. apply Hbound in Hl. lia.
        -- apply Hinj.
Qed.

(** X14: a resolution keeps the pin cache in order: if every host has an
    object of its own before, as in the cache [newPinning] makes, so it
    has afterwards. *)
Theorem GetCertificate_separate manager a hello :
  separate (pinCache a) -> separate (pinCache (snd (GetCertificate manager a hello))).
Proof. apply GetCertificate_separate_inv. Qed.

Lemma GetCertificate_frame manager a hello (other : string) :
  separate (pinCache a) ->
  other <> ServerName hello ->
  PinsFor (pinCache (snd (GetCertificate manager a hello))) other
  = PinsFor (pinCache a) other.
Proof.
  intros [Hbound Hinj] Hother.
  destruct (GetCertificate_cache manager a hello)
    as [->|(cert & hostPins & P0 & Hstart & Hcache)]; [reflexivity|].
  destruct (pinChain_exact (Certificate_ cert) hostPins P0) as (Hpins & _ & Hobjs & _).
  assert (Hlookup : pins (pinCache (snd (GetCertificate manager a hello))) !! other
                    = pins P0 !! other).
  { destruct Hcache as [->| ->]; simpl; rewrite ?lookup_insert_ne by congruence;
      now rewrite Hpins. }
  unfold PinsFor. rewrite Hlookup.
  destruct (pins (pinCache a) !! ServerName hello) as [l|] eqn:Hhost;
    injection Hstart as -> ->; simpl.
  - destruct (pins (pinCache a) !! other) as [l'|] eqn:Hl'; [|reflexivity].
    assert (l' <> l) by (intros ->; apply Hother; eauto).
    destruct Hcache as [->| ->]; simpl; now rewrite Hobjs.
  - destruct (pins (pinCache a) !! other) as [l'|] eqn:Hl'; [|reflexivity].
    assert (l' <> next (pinCache a)) by (apply Hbound in Hl'; lia).
    destruct Hcache as [->| ->]; simpl; rewrite Hobjs by assumption; simpl;
      now rewrite lookup_insert_ne.
Qed.

(** X15: a resolution touches the pins of the host it resolves and of no
    other: in a cache where every host has an object of its own, the pin
    set of every other host is afterwards what it was. *)
Theorem GetCertificate_other_hosts manager a hello (other : string) :
  separate (pinCache a) ->
  other <> ServerName hello ->
  PinsFor (pinCache (snd (GetCertificate manager a hello))) other
  = PinsFor (pinCache a) other.
Proof. apply GetCertificate_frame. Qed.

(** X16: pins are added and never taken away.  In a cache where every host
    has an object of its own, whatever a resolution does and however it
    ends, every pin of every host is still there afterwards. *)
Theorem pins_never_shrink manager a hello (hostName : string) :
  separate (pinCache a) ->
  PinsFor (pinCache a) hostName
  ⊆ PinsFor (pinCache (snd (GetCertificate manager a hello))) hostName.
Proof.
  intros Hsep. destruct (decide (hostName = ServerName hello)) as [->|Hother].
  - apply GetCertificate_keeps_pins.
  - now rewrite GetCertificate_frame.
Qed.

(** *** The mutex *)

Lemma holders_insert (ths : pool) (i : nat) hello (pt pt' : point) :
  ths !! i = Some (hello, pt) ->
  holders (<[i := (hello, pt')]> ths) + Nat.b2n (holds pt)
  = holders ths + Nat.b2n (holds pt').
Proof.
  revert i; induction ths as [|[h0 p0] ths IH]; intros [|i]; simpl; try discriminate.
  - intros [= -> ->]. lia.
  - intros Hi. apply IH in Hi. unfold insert in *. lia.
Qed.

Lemma holders_positive (ths : pool) (i : nat) hello (pt : point) :
  ths !! i = Some (hello, pt) -> holds pt = true -> 0 < holders ths.
Proof.
  revert i; induction ths as [|[h0 p0] ths IH]; intros [|i]; simpl; try discriminate.
  - intros [= -> ->] ->. simpl. lia.
  - intros Hi Hpt. specialize (IH i Hi Hpt). lia.
Qed.

Lemma holders_find (ths : pool) :
  0 < holders ths ->
  exists i hello pt, ths !! i = Some (hello, pt) /\ holds pt = true.
Proof.
  induction ths as [|[h0 p0] ths IH]; simpl; [lia|].
  destruct (holds p0) eqn:Hp0.
  - intros _. exists 0, h0, p0. auto.
  - simpl. intros H. destruct (IH H) as (i & hello & pt & Hi & Hpt).
    exists (S i), hello, pt. auto.
Qed.

(** One turn keeps the count of goroutines between [Lock] and [Unlock]
    equal to the state of the mutex. *)
Lemma turn_holders manager (i : nat) (ths : pool) (sh : shared) :
  holders ths = Nat.b2n (locked sh) ->
  holders (fst (turn manager i ths sh)) = Nat.b2n (locked (snd (turn manager i ths sh))).
Proof.
  intros Hinv. unfold Armor.turn.
  destruct (ths !! i) as [[hello pt]|] eqn:Hi; [|assumption].
  destruct (step manager hello pt sh) as [[pt' sh']|] eqn:Hstep; [|assumption].
  simpl. pose proof (holders_insert ths i hello pt pt' Hi) as Hcount.
  destruct pt as [|cert hostPins rest|cert hostPins|cert|r]; simpl in Hstep.
  - assert (holds pt' = false /\ locked sh' = locked sh) as [Hpt' ->].
    { destruct (NameToCertificate (tls sh) !! ServerName hello);
        [injection Hstep as <- <-; auto|].
      destruct (Auto (tls sh)); [|injection Hstep as <- <-; auto].
      destruct (manager hello); [|injection Hstep as <- <-; auto].
      simpl in Hstep. destruct (KeyPinning (tls sh)); [|injection Hstep as <- <-; auto].
      destruct (pins (pinCache (tls sh)) !! ServerName hello);
        injection Hstep as <- <-; auto. }
    rewrite Hpt' in Hcount. simpl in Hcount. lia.
  - destruct rest as [|crtDer rest].
    + destruct (locked sh) eqn:Hl; [discriminate|].
      injection Hstep as <- <-. simpl in *. lia.
    + assert (holds pt' = false /\ locked sh' = locked sh) as [Hpt' ->].
      { destruct (keyHash crtDer); injection Hstep as <- <-; auto. }
      rewrite Hpt' in Hcount. simpl in Hcount. lia.
  - injection Hstep as <- <-. simpl in *. lia.
  - injection Hstep as <- <-. simpl in *.
    pose proof (holders_positive ths i hello (AtReturn cert) Hi eq_refl).
    destruct (locked sh); simpl in *; lia.
  - discriminate.
Qed.

(** X17: the mutex does exclude.  Whatever the schedule of a pool of
    handshakes, the number of goroutines between [mutex.Lock()] and the
    deferred [mutex.Unlock()] is one while the mutex is held and none
    while it is free; so the store of a host's object into the host map
    never runs in two goroutines at once. *)
Theorem mutex_excludes manager (schedule : list nat) (ths : pool) (sh : shared) :
  holders ths = Nat.b2n (locked sh) ->
  holders (fst (run manager schedule ths sh))
  = Nat.b2n (locked (snd (run manager schedule ths sh))).
Proof.
  revert ths sh; induction schedule as [|i schedule IH]; intros ths sh Hinv;
    [assumption|].
  simpl. pose proof (turn_holders manager i ths sh Hinv) as Hturn.
  destruct (turn manager i ths sh) as [ths' sh']. now apply IH.
Qed.

(** X18: handshakes never block one another for good.  As long as one of
    them has not returned, one of them can make a step: the goroutine that
    holds the mutex if it is held, any that has not returned if it is
    free. *)
Theorem no_deadlock manager (ths : pool) (sh : shared) :
  holders ths = Nat.b2n (locked sh) ->
  (exists i hello pt, ths !! i = Some (hello, pt) /\ returned pt = false) ->
  exists i hello pt, ths !! i = Some (hello, pt) /\ is_Some (step manager hello pt sh).
Proof.
  intros Hinv (i & hello & pt & Hi & Hpt).
  destruct (locked sh) eqn:Hl.
  - destruct (holders_find ths) as (j & helloj & ptj & Hj & Hholds);
      [rewrite Hinv; simpl; lia|].
    exists j, helloj, ptj. split; [assumption|].
    destruct ptj; try discriminate; simpl; eauto.
  - exists i, hello, pt. split; [assumption|].
    destruct pt as [|cert hostPins [|crtDer rest]|cert hostPins|cert|r];
      try discriminate; simpl; rewrite ?Hl; eauto.
    + destruct (NameToCertificate (tls sh) !! ServerName hello); [eauto|].
      destruct (Auto (tls sh)); [|eauto]. destruct (manager hello); [|eauto].
      simpl. destruct (KeyPinning (tls sh)); [|eauto].
      destruct (pins (pinCache (tls sh)) !! ServerName hello); eauto.
    + destruct (keyHash crtDer); eauto.
Qed.

(** X19: the machine is the closure.  A handshake that runs alone from a
    free mutex comes to its end in finitely many steps, with the result
    and the state of the callback, and with the mutex free again, on the
    error paths too. *)
Theorem handshake_alone manager a hello :
  exists n,
    Armor.alone PublicKey x509_ParseCertificate x509_MarshalPKIXPublicKey
      sha256_Sum256 base64_EncodeToString manager n hello AtEntry (mkShared a false)
    = (Done (fst (GetCertificate manager a hello)),
       mkShared (snd (GetCertificate manager a hello)) false).
Proof. apply alone_GetCertificate. Qed.
End Handshakes.

(** ** The certificates [StartTLS] loads *)

Import StartTLS.

Section Loading.
Variable LoadX509KeyPair : string -> string -> Certificate + error.
Variable names : Certificate -> list string.

Local Abbreviation loadGlobal := (StartTLS.loadGlobal LoadX509KeyPair).
Local Abbreviation loadHosts := (StartTLS.loadHosts LoadX509KeyPair).
Local Abbreviation BuildNameToCertificate := (StartTLS.BuildNameToCertificate names).
Local Abbreviation loadCertificates := (StartTLS.loadCertificates LoadX509KeyPair names).
Local Abbreviation hostCertificate := (StartTLS.hostCertificate LoadX509KeyPair).

Lemma configured_false (certFile keyFile : string) :
  configured certFile keyFile = negb (String.eqb certFile "" || String.eqb keyFile "").
Proof. unfold configured. now rewrite negb_orb. Qed.

(** The loop over the hosts: it is fatal at the first host with both
    files whose pair does not load; otherwise it appends the certificates
    of exactly the hosts with both files. *)
Lemma loadHosts_result (hosts : list (string * Host)) (certificates : list Certificate) :
  match loadHosts hosts certificates with
  | Fatal err =>
      exists hostName host,
        (hostName, host) ∈ hosts
        /\ configured (CertFile host) (KeyFile host) = true
        /\ LoadX509KeyPair (CertFile host) (KeyFile host) = inr err
  | Loaded certificates' =>
      exists loaded,
        certificates' = (certificates ++ loaded)%list
        /\ Forall (hostCertificate hosts) loaded
        /\ forall hostName host,
             (hostName, host) ∈ hosts ->
             configured (CertFile host) (KeyFile host) = true ->
             exists cert, LoadX509KeyPair (CertFile host) (KeyFile host) = inl cert
                          /\ cert ∈ loaded
  end.
Proof.
  revert certificates; induction hosts as [|[hostName host] hosts IH];
    intros certificates; simpl.
  - exists []. rewrite app_nil_r. repeat split; [constructor|].
    intros ? ? H. now apply elem_of_nil in H.
  - pose proof (configured_false (CertFile host) (KeyFile host)) as Hconf.
    destruct (String.eqb (CertFile host) "" || String.eqb (KeyFile host) ""); simpl in Hconf.
    + specialize (IH certificates). destruct (loadHosts hosts certificates) as [cs|err].
      * destruct IH as (loaded & -> & Hall & Hevery). exists loaded.
        split; [reflexivity|]. split.
        -- eapply Forall_impl; [exact Hall|].
           intros c (hn & h & Hin & Hc & Hl). exists hn, h. split; [now right | auto].
        -- intros hn h Hin Hc. apply elem_of_cons in Hin as [Heq|Hin]; [|eauto].
           injection Heq as -> ->. congruence.
      * destruct IH as (hn & h & Hin & Hc & Hl). exists hn, h. split; [now right | auto].
    + destruct (LoadX509KeyPair (CertFile host) (KeyFile host)) as [cert|err] eqn:Hload.
      * specialize (IH (certificates ++ [cert])%list).
        destruct (loadHosts hosts (certificates ++ [cert])%list) as [cs|err].
        -- destruct IH as (loaded & -> & Hall & Hevery). exists (cert :: loaded).
           split; [now rewrite <- app_assoc|]. split.
           ++ constructor.
              ** exists hostName, host. split; [now left | auto].
              ** eapply Forall_impl; [exact Hall|].
                 intros c (hn & h & Hin & Hc & Hl). exists hn, h. split; [now right | auto].
           ++ intros hn h Hin Hc. apply elem_of_cons in Hin as [Heq|Hin].
              ** injection Heq as -> ->. exists cert. split; [assumption | now left].
              ** destruct (Hevery hn h Hin Hc) as (c & Hl & Hc'). exists c.
                 split; [assumption | now right].
        -- destruct IH as (hn & h & Hin & Hc & Hl). exists hn, h. split; [now right | auto].
      * exists hostName, host. split; [now left | auto].
Qed.

(** X20: the server starts with all its certificates or not at all.  The
    loading is fatal with the error of a configured pair of files (the
    server's own or a host's) that does not load; when it goes through,
    every configured pair has loaded.  A host with only one of the two
    files is passed over, whatever is in that file. *)
Theorem StartTLS_loads_all_or_dies (certFile keyFile : string)
    (hosts : list (string * Host)) (certificates : list Certificate) :
  match loadCertificates certFile keyFile hosts certificates with
  | Fatal err =>
      (configured certFile keyFile = true /\ LoadX509KeyPair certFile keyFile = inr err)
      \/ exists hostName host,
           (hostName, host) ∈ hosts
           /\ configured (CertFile host) (KeyFile host) = true
           /\ LoadX509KeyPair (CertFile host) (KeyFile host) = inr err
  | Loaded _ =>
      (configured certFile keyFile = true ->
       exists cert, LoadX509KeyPair certFile keyFile = inl cert)
      /\ forall hostName host,
           (hostName, host) ∈ hosts ->
           configured (CertFile host) (KeyFile host) = true ->
           exists cert, LoadX509KeyPair (CertFile host) (KeyFile host) = inl cert
  end.
Proof.
  unfold StartTLS.loadCertificates, StartTLS.loadGlobal. fold (configured certFile keyFile).
  destruct (configured certFile keyFile).
  - destruct (LoadX509KeyPair certFile keyFile) as [cert|err]; [|auto].
    pose proof (loadHosts_result hosts (certificates ++ [cert])%list) as H.
    destruct (loadHosts hosts (certificates ++ [cert])%list) as [cs|err]; [|auto].
    destruct H as (loaded & _ & _ & Hevery). split; [eauto|].
    intros hn h Hin Hc. destruct (Hevery hn h Hin Hc) as (c & Hl & _). eauto.
  - pose proof (loadHosts_result hosts certificates) as H.
    destruct (loadHosts hosts certificates) as [cs|err]; [|auto].
    destruct H as (loaded & _ & _ & Hevery). split; [discriminate|].
    intros hn h Hin Hc. destruct (Hevery hn h Hin Hc) as (c & Hl & _). eauto.
Qed.

(** Filing a certificate under its names. *)
Lemma file_names (cert : Certificate) (ns : list string) (m : gmap string Certificate)
    (name : string) :
  foldl (fun m name => <[name := cert]> m) m ns !! name
  = if decide (name ∈ ns) then Some cert else m !! name.
Proof.
  revert m; induction ns as [|n ns IH]; intros m; simpl.
  - destruct (decide (name ∈ [])) as [H|H]; [now apply elem_of_nil in H | reflexivity].
  - rewrite IH.
    destruct (decide (name ∈ ns)) as [H1|H1], (decide (name ∈ n :: ns)) as [H2|H2];
      try reflexivity.
    + exfalso. apply H2. now right.
    + apply elem_of_cons in H2 as [->|]; [|contradiction]. apply lookup_insert_eq.
    + apply lookup_insert_ne. intros ->. apply H2. now left.
Qed.

(** The table answers a name with the last certificate that has it. *)
Lemma table_last (l : list Certificate) (m : gmap string Certificate) (name : string) :
  (exists cert, cert ∈ l /\ name ∈ names cert) ->
  exists cert,
    foldl (fun m cert => foldl (fun m name => <[name := cert]> m) m (names cert)) m l
      !! name = Some cert
    /\ cert ∈ l /\ name ∈ names cert.
Proof.
  induction l as [|c l IH] using rev_ind; intros (cert & Hin & Hname).
  - now apply elem_of_nil in Hin.
  - rewrite foldl_app. simpl. rewrite file_names.
    destruct (decide (name ∈ names c)) as [Hc|Hc].
    + exists c. split; [reflexivity|]. split; [|assumption].
      apply elem_of_app. right. now left.
    + apply elem_of_app in Hin as [Hin|Hin].
      * destruct IH as (c' & Hl & Hin' & Hn'); [eauto|].
        exists c'. split; [assumption|]. split; [|assumption].
        apply elem_of_app. now left.
      * apply list_elem_of_singleton in Hin as ->. contradiction.
Qed.

(** X21: a host's certificate goes before the server's own.  Once the
    loading has gone through, a name that the certificate of some host
    has is answered by the table, and so by the callback, with a host's
    certificate that has the name: never with the server's own
    certificate, in whatever order the hosts were ranged over; and the
    manager is not asked. *)
Theorem StartTLS_host_certificate_served (certFile keyFile : string)
    (hosts : list (string * Host)) (certificates : list Certificate)
    (table : gmap string Certificate) (hostName : string) (host : Host)
    (cert : Certificate) (name : string) :
  loadCertificates certFile keyFile hosts certificates = Loaded table ->
  (hostName, host) ∈ hosts ->
  configured (CertFile host) (KeyFile host) = true ->
  LoadX509KeyPair (CertFile host) (KeyFile host) = inl cert ->
  name ∈ names cert ->
  exists served,
    table !! name = Some served
    /\ name ∈ names served
    /\ hostCertificate hosts served
    /\ forall PublicKey parse marshal sha b64 manager (a : TLS) (suites : list Z),
         NameToCertificate a = table ->
         Armor.GetCertificate PublicKey parse marshal sha b64 manager a
           (mkClientHello name suites)
         = ((Some served, None), a).
Proof.
  unfold StartTLS.loadCertificates.
  destruct (loadGlobal certFile keyFile certificates) as [cs0|]; [|discriminate].
  pose proof (loadHosts_result hosts cs0) as H.
  destruct (loadHosts hosts cs0) as [cs|]; [|discriminate].
  destruct H as (loaded & -> & Hall & Hevery).
  intros [= <-] Hin Hconf Hload Hname.
  destruct (Hevery hostName host Hin Hconf) as (c & Hc & Hloaded).
  assert (c = cert) as -> by congruence.
  unfold StartTLS.BuildNameToCertificate. rewrite foldl_app.
  destruct (table_last loaded
              (foldl (fun m cert => foldl (fun m name => <[name := cert]> m) m (names cert))
                 ∅ cs0) name) as (served & Hserved & Hin' & Hname'); [eauto|].
  exists served. split; [assumption|]. split; [assumption|]. split.
  - rewrite Forall_forall in Hall. now apply Hall.
  - intros PublicKey parse marshal sha b64 manager a suites Htable.
    unfold Armor.GetCertificate. simpl. rewrite Htable.
    rewrite <- foldl_app in Hserved |- *. now rewrite Hserved.
Qed.
End Loading.

(** ** The further properties at sample inputs *)

Lemma provisioned_pins_exact_witness :
  PinsFor (pinCache Example2.pinned) "a.com"
  = PinsFor (pinCache (Example.server true true)) "a.com"
    ∪ chainPins Example2.keyHash ["rsa-leaf"; "ca"].
Proof.
  apply (provisioned_pins_exact string Example.parse Example.marshal Example.sha
           Example.b64 Example.manager (Example.server true true) Example.rsaHello
           Example.rsaChain Example2.pinned); reflexivity.
Defined.

Lemma failed_pinning_witness :
  fst (Example2.brokenGetCertificate Example2.pinned Example.rsaHello)
  = (None, Some (ErrExternal "x509: malformed certificate"))
  /\ pins (pinCache (snd (Example2.brokenGetCertificate Example2.pinned Example.rsaHello)))
     = pins (pinCache Example2.pinned)
  /\ PinsFor (pinCache (snd (Example2.brokenGetCertificate Example2.pinned Example.rsaHello)))
       "a.com"
     = PinsFor (pinCache Example2.pinned) "a.com"
       ∪ chainPins Example2.keyHash ["new-leaf"; ""; "ca"].
Proof.
  apply (failed_pinning string Example.parse Example.marshal Example.sha Example.b64
           Example2.brokenManager Example2.pinned Example.rsaHello Example2.brokenChain);
    reflexivity.
Defined.

Lemma GetCertificate_separate_witness :
  separate (pinCache Example2.pinned).
Proof.
  apply (GetCertificate_separate string Example.parse Example.marshal Example.sha
           Example.b64 Example.manager (Example.server true true) Example.rsaHello).
  apply separate_newPinning.
Defined.

Lemma GetCertificate_other_hosts_witness :
  PinsFor (pinCache Example2.pinned) "b.com"
  = PinsFor (pinCache (Example.server true true)) "b.com".
Proof.
  apply (GetCertificate_other_hosts string Example.parse Example.marshal Example.sha
           Example.b64 Example.manager (Example.server true true) Example.rsaHello "b.com").
  - apply separate_newPinning.
  - discriminate.
Defined.

Lemma pins_never_shrink_witness :
  PinsFor (pinCache Example2.pinned) "a.com"
  ⊆ PinsFor (pinCache (snd (Example.GetCertificate Example2.pinned Example.ecHello))) "a.com".
Proof.
  apply (pins_never_shrink string Example.parse Example.marshal Example.sha
           Example.b64 Example.manager Example2.pinned Example.ecHello "a.com").
  apply (GetCertificate_separate_inv string Example.parse Example.marshal Example.sha
           Example.b64 Example.manager (Example.server true true) Example.rsaHello).
  apply separate_newPinning.
Defined.

Lemma mutex_excludes_witness :
  holders (fst (Example.run [0; 1; 0; 0; 1; 1; 0; 1] Example2.twoHandshakes
                  (mkShared (Example.server true true) false)))
  = Nat.b2n (locked (snd (Example.run [0; 1; 0; 0; 1; 1; 0; 1] Example2.twoHandshakes
                            (mkShared (Example.server true true) false)))).
Proof.
  apply (mutex_excludes string Example.parse Example.marshal Example.sha Example.b64
           Example.manager). reflexivity.
Defined.

Lemma no_deadlock_witness :
  exists i hello pt,
    Example2.twoHandshakes !! i = Some (hello, pt)
    /\ is_Some (Example2.step hello pt (mkShared (Example.server true true) false)).
Proof.
  apply (no_deadlock string Example.parse Example.marshal Example.sha Example.b64
           Example.manager Example2.twoHandshakes (mkShared (Example.server true true) false)).
  - reflexivity.
  - exists 0, Example.rsaHello, AtEntry. split; reflexivity.
Defined.

Lemma StartTLS_host_certificate_served_witness :
  exists served,
    BuildNameToCertificate Example2.leafNames
      [mkCertificate ["wild.pem"]; mkCertificate ["a.com"]] !! "a.com" = Some served
    /\ "a.com" ∈ Example2.leafNames served
    /\ hostCertificate Example2.load Example2.hosts served
    /\ forall PublicKey parse marshal sha b64 manager (a : TLS) (suites : list Z),
         NameToCertificate a
         = BuildNameToCertificate Example2.leafNames
             [mkCertificate ["wild.pem"]; mkCertificate ["a.com"]] ->
         Armor.GetCertificate PublicKey parse marshal sha b64 manager a
           (mkClientHello "a.com" suites)
         = ((Some served, None), a).
Proof.
  apply (StartTLS_host_certificate_served Example2.load Example2.leafNames
           "wild.pem" "wild.key" Example2.hosts [] _ "a.com"
           (StartTLS.mkHost "a.com" "a.key") (mkCertificate ["a.com"]) "a.com").
  - reflexivity.
  - right. left.
  - reflexivity.
  - reflexivity.
  - left.
Defined.
